(** * Refactoring helper scripts: the template converter and the batch driver

    [scripts/convert-string-interpolation.py] is meant to turn the body of
    a C# raw interpolated string into StringBuilder calls, one call per
    line.  [scripts/fix-scanners.py] rewrites a fixed list of scanner
    files and reports, file by file, whether the rewrite went through.

    The converter does not load as it is shipped: its docstring shows a
    C# raw string, and the three quotes of that example end the docstring
    early.  The development first reads both files the way Python does,
    which shows the error, and then studies the statements of the
    converter's body for what they compute once the docstring is one
    string literal.

    Python strings are sequences of Unicode code points; they are modelled
    as lists of code points so that [str.strip], [str.split] and [str.join]
    keep the meaning they have in Python. *)

From Stdlib Require Import NArith Ascii String List.
From stdpp Require Import base decidable numbers list.
Import ListNotations.

Local Open Scope N_scope.
Local Open Scope list_scope.

(** ** Strings *)

Abbreviation char := N (only parsing).
Abbreviation str := (list N) (only parsing).

(** An ASCII literal as a Python string. *)
Fixpoint lit (s : string) : str :=
  match s with
  | EmptyString => []
  | String a s' => N_of_ascii a :: lit s'
  end.

Definition nl : char := 10.
Definition dquote : char := 34.
Definition lbrace : char := 123.
Definition rbrace : char := 125.

Definition triple_quote : str := [dquote; dquote; dquote].

(** [str.isspace] on one code point: the table of CPython's
    [_PyUnicode_IsWhitespace]. *)
Definition isspace (c : char) : bool :=
  ((9 <=? c) && (c <=? 13)) || ((28 <=? c) && (c <=? 32))
  || (c =? 133) || (c =? 160) || (c =? 5760)
  || ((8192 <=? c) && (c <=? 8202))
  || (c =? 8232) || (c =? 8233) || (c =? 8239) || (c =? 8287)
  || (c =? 12288).

(** [s.lstrip()], [s.rstrip()] and [s.strip()] with no argument. *)
Fixpoint lstrip (s : str) : str :=
  match s with
  | c :: s' => if isspace c then lstrip s' else s
  | [] => []
  end.

Definition rstrip (s : str) : str := reverse (lstrip (reverse s)).

Definition strip (s : str) : str := rstrip (lstrip s).

(** [s.split(sep)] for a one-character separator: every occurrence of the
    separator cuts, so [k] occurrences give [k + 1] pieces and the empty
    string gives one empty piece. *)
Fixpoint split (sep : char) (s : str) : list str :=
  match s with
  | [] => [[]]
  | c :: s' =>
      if bool_decide (c = sep) then [] :: split sep s'
      else match split sep s' with
           | w :: ws => (c :: w) :: ws
           | [] => [[c]]
           end
  end.

(** [sep.join(pieces)]. *)
Fixpoint join (sep : str) (pieces : list str) : str :=
  match pieces with
  | [] => []
  | [p] => p
  | p :: ps => p ++ sep ++ join sep ps
  end.

(** ** How Python reads a source file

    What follows is the part of Python's reading of a file that fixes its
    line structure: string literals (in single or double quotes, one or
    three of them, with backslash escapes), comments, brackets, and the
    indentation of the logical lines.  It finds the errors of that level:
    an indent that nothing asked for, a block that is missing, a dedent
    to a column no enclosing block has, a string literal or a bracket
    that is not closed, a closing bracket without its opening one.  Tabs
    and a backslash that ends a line of code are left out (neither script
    has them).  The grammar of statements is not modelled: what is said
    of a text holds when no error of grammar comes before the error found
    here, and a text that passes can still fail to parse. *)

Definition squote : char := 39.
Definition hash : char := 35.
Definition backslash : char := 92.
Definition colon : char := 58.
Definition space : char := 32.

Inductive load_error : Type :=
  | IndentationError (lineno : nat)
  | SyntaxError (lineno : nat).

(** Reading code, or inside a string literal that began on line [start]. *)
Inductive lex_mode : Type :=
  | Code
  | InString (quote : N) (triple : bool) (start : nat).

Definition is_open_bracket (c : char) : bool :=
  bool_decide (c = 40) || bool_decide (c = 91) || bool_decide (c = 123).

Definition is_close_bracket (c : char) : bool :=
  bool_decide (c = 41) || bool_decide (c = 93) || bool_decide (c = 125).

Definition closes (opening closing : char) : bool :=
  (bool_decide (opening = 40) && bool_decide (closing = 41))
  || (bool_decide (opening = 91) && bool_decide (closing = 93))
  || (bool_decide (opening = 123) && bool_decide (closing = 125)).

(** One physical line, read from left to right.  [brackets] holds the
    brackets that are open, each with the line it stands on, and [last]
    is the last character of code read on the logical line.  A string
    literal opened by three quotes ends at the next three quotes of the
    same kind, whatever stands between.  [None] is a closing bracket that
    closes nothing or closes a bracket of another kind. *)
Fixpoint scan_line (lineno : nat) (m : lex_mode) (brackets : list (N * nat))
    (last : option N) (s : str) : option (lex_mode * list (N * nat) * option N) :=
  match s with
  | [] => Some (m, brackets, last)
  | c :: s1 =>
      match m with
      | InString q triple _ =>
          if bool_decide (c = backslash) then
            match s1 with
            | [] => Some (m, brackets, last)
            | _ :: s2 => scan_line lineno m brackets last s2
            end
          else if bool_decide (c = q) then
            if triple then
              match s1 with
              | c2 :: c3 :: s3 =>
                  if bool_decide (c2 = q) && bool_decide (c3 = q)
                  then scan_line lineno Code brackets last s3
                  else scan_line lineno m brackets last s1
              | _ => scan_line lineno m brackets last s1
              end
            else scan_line lineno Code brackets last s1
          else scan_line lineno m brackets last s1
      | Code =>
          if bool_decide (c = hash) then Some (Code, brackets, last)
          else if bool_decide (c = dquote) || bool_decide (c = squote) then
            match s1 with
            | c2 :: c3 :: s3 =>
                if bool_decide (c2 = c) && bool_decide (c3 = c)
                then scan_line lineno (InString c true lineno) brackets (Some c) s3
                else scan_line lineno (InString c false lineno) brackets (Some c) s1
            | _ => scan_line lineno (InString c false lineno) brackets (Some c) s1
            end
          else if is_open_bracket c
          then scan_line lineno Code ((c, lineno) :: brackets) (Some c) s1
          else if is_close_bracket c then
            match brackets with
            | (opening, _) :: brackets' =>
                if closes opening c then scan_line lineno Code brackets' (Some c) s1
                else None
            | [] => None
            end
          else if bool_decide (c = space) then scan_line lineno Code brackets last s1
          else scan_line lineno Code brackets (Some c) s1
      end
  end.

(** The number of spaces a line begins with, and whether it has nothing
    but spaces and a comment. *)
Fixpoint indentation (line : str) : nat :=
  match line with
  | c :: line' => if bool_decide (c = space) then S (indentation line') else 0
  | [] => 0
  end.

Definition is_blank_or_comment (line : str) : bool :=
  match drop (indentation line) line with
  | [] => true
  | c :: _ => bool_decide (c = hash)
  end.

(** The enclosing indentations that are left at a dedent to [ind]. *)
Fixpoint pop_to (ind : nat) (indents : list nat) : list nat :=
  match indents with
  | n :: indents' => if (ind <? n)%nat then pop_to ind indents' else indents
  | [] => []
  end.

(** The file, line by line.  [indents] is the stack of the indentations
    of the open blocks.  A logical line that ends with a colon opens a
    block, and only such a line may be followed by a deeper one: a deeper
    line anywhere else is the error [unexpected indent], and it is final.
    A block that is missing is an error too, but Python then looks at the
    rest of the file and reports an unclosed string, a bad bracket or a
    bad dedent there in its place: [pending] keeps the error of the
    missing block while the rest is read. *)
Fixpoint read_lines (lineno : nat) (m : lex_mode) (brackets : list (N * nat))
    (last : option N) (indents : list nat) (pending : option load_error)
    (lines : list str) : option load_error :=
  match lines with
  | [] =>
      match m, brackets, pending with
      | InString _ _ start, _, _ => Some (SyntaxError start)
      | Code, (_, opened) :: _, None => Some (SyntaxError opened)
      | Code, _, Some e => Some e
      | Code, [], None =>
          if bool_decide (last = Some colon) then Some (IndentationError (pred lineno))
          else None
      end
  | line :: lines' =>
      let starts_logical_line :=
        match m, brackets with
        | Code, [] => true
        | _, _ => false
        end in
      if starts_logical_line && is_blank_or_comment line
      then read_lines (S lineno) m brackets last indents pending lines'
      else if negb starts_logical_line then
        match scan_line lineno m brackets last line with
        | None | Some (InString _ false _, _, _) => Some (SyntaxError lineno)
        | Some (m', brackets', last') =>
            read_lines (S lineno) m' brackets' last' indents pending lines'
        end
      else
        let ind := indentation line in
        let top := hd 0%nat indents in
        let opener := bool_decide (last = Some colon) in
        let deeper := (top <? ind)%nat in
        let indents' := if deeper then ind :: indents else pop_to ind indents in
        if negb deeper && negb (hd 0%nat indents' =? ind)%nat
        then Some (IndentationError lineno)
        else if deeper && negb opener && bool_decide (pending = None)
        then Some (IndentationError lineno)
        else
          let pending' :=
            if negb deeper && opener && bool_decide (pending = None)
            then Some (IndentationError lineno) else pending in
          match scan_line lineno Code [] None line with
          | None | Some (InString _ false _, _, _) => Some (SyntaxError lineno)
          | Some (m', brackets', last') =>
              read_lines (S lineno) m' brackets' last' indents' pending' lines'
          end
  end.

(** The error Python reports when the file is read from its first line,
    if there is one of this level. *)
Definition load_error_of (source : list str) : option load_error :=
  read_lines 1 Code [] None [0%nat] None source.

(** The lines of [scripts/convert-string-interpolation.py], as shipped. *)
Definition converter_source : list (list N) :=
  [ lit "#!/usr/bin/env python3";
    triple_quote;
    lit "Script to help convert raw string interpolations to StringBuilder in C# files.";
    lit "This is a helper script to demonstrate the pattern, not for automated replacement.";
    triple_quote;
    [];
    lit "def convert_raw_string_to_stringbuilder(raw_string_content):";
    lit "    " ++ triple_quote;
    lit "    Convert a raw string interpolation to StringBuilder pattern.";
    lit "    ";
    lit "    Example:";
    lit "    Input: ";
    lit "        return $" ++ triple_quote;
    lit "            # Title";
    lit "            **Property:** {value}";
    lit "            " ++ triple_quote ++ lit ";";
    lit "            ";
    lit "    Output:";
    lit "        var sb = new StringBuilder();";
    lit "        sb.AppendLine(" ++ [dquote] ++ lit "# Title" ++ [dquote] ++ lit ");";
    lit "        sb.AppendLine($" ++ [dquote] ++ lit "**Property:** {value}" ++ [dquote] ++ lit ");";
    lit "        return sb.ToString();";
    lit "    " ++ triple_quote;
    lit "    lines = raw_string_content.strip().split('\n')";
    lit "    output = []";
    lit "    ";
    lit "    # Start with StringBuilder initialization";
    lit "    output.append(" ++ [dquote] ++ lit "var sb = new StringBuilder();" ++ [dquote] ++ lit ")";
    lit "    ";
    lit "    # Convert each line";
    lit "    for line in lines:";
    lit "        # Skip the opening and closing triple quotes";
    lit "        if line.strip() in ['return $" ++ triple_quote ++ lit "', '" ++ triple_quote ++ lit ";', '$" ++ triple_quote ++ lit "', '" ++ triple_quote ++ lit "']:";
    lit "            continue";
    lit "            ";
    lit "        # Remove leading whitespace to determine actual content";
    lit "        content = line.strip()";
    lit "        ";
    lit "        if not content:";
    lit "            # Empty line";
    lit "            output.append(" ++ [dquote] ++ lit "sb.AppendLine();" ++ [dquote] ++ lit ")";
    lit "        elif '{' in content and '}' in content:";
    lit "            # Line contains interpolation";
    lit "            output.append(f'sb.AppendLine($" ++ [dquote] ++ lit "{content}" ++ [dquote] ++ lit ");')";
    lit "        else:";
    lit "            # Regular string line";
    lit "            output.append(f'sb.AppendLine(" ++ [dquote] ++ lit "{content}" ++ [dquote] ++ lit ");')";
    lit "    ";
    lit "    # Add return statement";
    lit "    output.append(" ++ [dquote] ++ lit "return sb.ToString();" ++ [dquote] ++ lit ")";
    lit "    ";
    lit "    return '\n'.join(output)";
    [];
    lit "# Example usage";
    lit "if __name__ == " ++ [dquote] ++ lit "__main__" ++ [dquote] ++ lit ":";
    lit "    example = '''";
    lit "            return $" ++ triple_quote;
    lit "                # " ++ [128202] ++ lit " Environment Metrics: {name}";
    [];
    lit "                **Retrieved At:** {DateTime.UtcNow:yyyy-MM-dd HH:mm:ss} UTC";
    [];
    lit "                ## Performance Overview";
    lit "                | Metric | Current Value | Status |";
    lit "                |--------|---------------|---------|";
    lit "                | CPU Utilization | {GetPropertyValue(result, " ++ [dquote] ++ lit "cpu" ++ [dquote] ++ lit ")?.ToString() ?? " ++ [dquote] ++ lit "N/A" ++ [dquote] ++ lit "}% | {GetMetricStatus(" ++ [dquote] ++ lit "cpu" ++ [dquote] ++ lit ", result)} |";
    lit "                " ++ triple_quote ++ lit ";";
    lit "    '''";
    lit "    ";
    lit "    print(" ++ [dquote] ++ lit "Original:" ++ [dquote] ++ lit ")";
    lit "    print(example)";
    lit "    print(" ++ [dquote] ++ lit "\nConverted:" ++ [dquote] ++ lit ")";
    lit "    print(convert_raw_string_to_stringbuilder(example))" ].

(** The lines of [scripts/fix-scanners.py]. *)
Definition fix_scanners_source : list (list N) :=
  [ lit "#!/usr/bin/env python3";
    triple_quote;
    lit "Fix scanner files: replace Evidence dictionary with JsonSerializer.Serialize";
    lit "and fix control.Description references";
    triple_quote;
    lit "import re";
    lit "import sys";
    [];
    lit "def fix_scanner_file(filepath):";
    lit "    with open(filepath, 'r') as f:";
    lit "        content = f.read()";
    lit "    ";
    lit "    # Fix Evidence = new Dictionary<string, object> { ... }";
    lit "    # This regex finds the Evidence assignment pattern";
    lit "    content = re.sub(";
    lit "        r'Evidence = new Dictionary<string, object>\s*\{([^}]+)\}',";
    lit "        r'Evidence = JsonSerializer.Serialize(new Dictionary<string, object> {\1})',";
    lit "        content,";
    lit "        flags=re.DOTALL";
    lit "    )";
    lit "    ";
    lit "    # Fix control.Description to control.Title ?? " ++ [dquote] ++ lit "Manual Review" ++ [dquote];
    lit "    content = re.sub(";
    lit "        r'\$" ++ [dquote] ++ lit "\{control\.Title\}: \{control\.Description\}" ++ [dquote] ++ lit "',";
    lit "        r'control.Title ?? " ++ [dquote] ++ lit "Manual review required for this control" ++ [dquote] ++ lit "',";
    lit "        content";
    lit "    )";
    lit "    ";
    lit "    with open(filepath, 'w') as f:";
    lit "        f.write(content)";
    lit "    ";
    lit "    print(f" ++ [dquote] ++ lit "Fixed {filepath}" ++ [dquote] ++ lit ")";
    [];
    lit "if __name__ == " ++ [dquote] ++ lit "__main__" ++ [dquote] ++ lit ":";
    lit "    scanner_files = [";
    lit "        " ++ [dquote] ++ lit "src/Platform.Engineering.Copilot.Core/Services/Compliance/Scanners/ContingencyPlanningScanner.cs" ++ [dquote] ++ lit ",";
    lit "        " ++ [dquote] ++ lit "src/Platform.Engineering.Copilot.Core/Services/Compliance/Scanners/IdentificationAuthenticationScanner.cs" ++ [dquote] ++ lit ",";
    lit "        " ++ [dquote] ++ lit "src/Platform.Engineering.Copilot.Core/Services/Compliance/Scanners/ConfigurationManagementScanner.cs" ++ [dquote] ++ lit ",";
    lit "        " ++ [dquote] ++ lit "src/Platform.Engineering.Copilot.Core/Services/Compliance/Scanners/IncidentResponseScanner.cs" ++ [dquote] ++ lit ",";
    lit "        " ++ [dquote] ++ lit "src/Platform.Engineering.Copilot.Core/Services/Compliance/Scanners/RiskAssessmentScanner.cs" ++ [dquote] ++ lit ",";
    lit "        " ++ [dquote] ++ lit "src/Platform.Engineering.Copilot.Core/Services/Compliance/Scanners/SecurityAssessmentScanner.cs" ++ [dquote] ++ lit ",";
    lit "    ]";
    lit "    ";
    lit "    for filepath in scanner_files:";
    lit "        try:";
    lit "            fix_scanner_file(filepath)";
    lit "        except Exception as e:";
    lit "            print(f" ++ [dquote] ++ lit "Error fixing {filepath}: {e}" ++ [dquote] ++ lit ", file=sys.stderr)" ].

(** ** convert-string-interpolation.py

    As shipped the file does not load.  The docstring of the function
    opens on line 8 and was meant to run to line 23, but it ends at the
    three quotes of its own example on line 13; line 14 is then a comment
    and line 15 an indent that nothing asked for, so Python raises
    [IndentationError] there and never defines the function
    ([load_error_of converter_source], below).

    The definitions of this section are the statements of the function
    body, lines 24 to 52, taken as they stand: they are what a call runs
    once lines 8 to 23 are read as the one string literal they were
    written to be, or are left out.  Every result about
    [convert_raw_string_to_stringbuilder] is a result about that body,
    not about a run of the shipped file. *)

(** The list the loop tests each trimmed line against. *)
Definition delimiters : list str :=
  [ lit "return $" ++ triple_quote;
    triple_quote ++ lit ";";
    lit "$" ++ triple_quote;
    triple_quote ].

Definition init_stmt : str := lit "var sb = new StringBuilder();".
Definition return_stmt : str := lit "return sb.ToString();".
Definition blank_stmt : str := lit "sb.AppendLine();".

(** [f'sb.AppendLine("{content}");'] *)
Definition literal_stmt (content : str) : str :=
  lit "sb.AppendLine(" ++ [dquote] ++ content ++ [dquote] ++ lit ");".

(** [f'sb.AppendLine($"{content}");'] *)
Definition interpolated_stmt (content : str) : str :=
  lit "sb.AppendLine($" ++ [dquote] ++ content ++ [dquote] ++ lit ");".

(** One turn of the [for line in lines] loop; [output] is the list the
    loop appends to. *)
Definition convert_line (output : list str) (line : str) : list str :=
  if bool_decide (strip line ∈ delimiters) then output
  else
    let content := strip line in
    if bool_decide (content = []) then output ++ [blank_stmt]
    else if bool_decide (lbrace ∈ content) && bool_decide (rbrace ∈ content)
    then output ++ [interpolated_stmt content]
    else output ++ [literal_stmt content].

Definition convert_raw_string_to_stringbuilder (raw_string_content : str) : str :=
  let lines := split nl (strip raw_string_content) in
  let output := [] in
  let output := output ++ [init_stmt] in
  let output := fold_left convert_line lines output in
  let output := output ++ [return_stmt] in
  join [nl] output.

(** A call of the function in the file as shipped: the file is loaded
    first, and the body runs only if that goes through. *)
Definition call_shipped_converter (raw_string_content : str) : load_error + str :=
  match load_error_of converter_source with
  | Some e => inl e
  | None => inr (convert_raw_string_to_stringbuilder raw_string_content)
  end.

(** The statement appended for a line that is kept, as a function of its
    trimmed content (the three branches of the loop body). *)
Definition append_stmt (content : str) : str :=
  if bool_decide (content = []) then blank_stmt
  else if bool_decide (lbrace ∈ content) && bool_decide (rbrace ∈ content)
  then interpolated_stmt content
  else literal_stmt content.

(** The lines of the input block, and those of them the loop keeps. *)
Definition block_lines (raw : str) : list str := split nl (strip raw).

Definition non_delimiter_lines (raw : str) : list str :=
  filter (λ line, strip line ∉ delimiters) (block_lines raw).

(** The lines of an output text, and the statements strictly between its
    first and its last line. *)
Definition output_lines (out : str) : list str := split nl out.

Definition append_statements (out : str) : list str :=
  removelast (tail (output_lines out)).

(** [appends_content content stmt]: [stmt] is the append statement that
    carries the trimmed line [content]: the call without argument for an
    empty line, a quoted call around [content] otherwise. *)
Definition appends_content (content stmt : str) : Prop :=
  (content = [] ∧ stmt = blank_stmt)
  ∨ (content ≠ [] ∧ (stmt = literal_stmt content ∨ stmt = interpolated_stmt content)).

(** The three shapes of an append statement. *)
Definition append_form (stmt : str) : Prop :=
  stmt = blank_stmt
  ∨ ∃ text, (nl ∉ text) ∧ (stmt = literal_stmt text ∨ stmt = interpolated_stmt text).

(** *** Trimmed texts

    A text that [strip] leaves alone begins and ends with a character
    that is not white space, or is empty. *)
Definition is_space (c : char) : Prop := isspace c = true.

Definition starts_nonspace (s : str) : Prop :=
  match s with
  | [] => True
  | c :: _ => isspace c = false
  end.

Definition ends_nonspace (s : str) : Prop := starts_nonspace (reverse s).

(** ** fix-scanners.py *)

(** The exceptions [open], [read] and [write] raise: [OSError] (with its
    subclasses [FileNotFoundError], [PermissionError], ...) and
    [UnicodeError] for text that does not decode or encode.  Both derive
    from [Exception]. *)
Inductive exn : Type :=
  | OSError (message : str)
  | UnicodeError (message : str).

(** [str(e)] *)
Definition exn_str (e : exn) : str :=
  match e with
  | OSError message => message
  | UnicodeError message => message
  end.

(** *** The two substitutions

    [re.sub(pattern, repl, content)] for a pattern that matches no empty
    string.  [match_at s] tells whether the pattern matches at the head of
    [s], and then gives the replacement and the text after the match.
    The scan goes from left to right and does not look again at the text
    of a match: [skip] counts the characters of the last match that are
    still to be passed. *)
Fixpoint re_sub (match_at : str → option (str * str)) (skip : nat) (s : str) : str :=
  match s with
  | [] => []
  | c :: s' =>
      match skip with
      | S k => re_sub match_at k s'
      | O =>
          match match_at s with
          | Some (replacement, rest) =>
              replacement ++ re_sub match_at (length s' - length rest) s'
          | None => c :: re_sub match_at 0 s'
          end
      end
  end.

(** The text after [prefix], when [s] starts with it. *)
Fixpoint strip_prefix (prefix s : str) : option str :=
  match prefix, s with
  | [], _ => Some s
  | p :: prefix', c :: s' =>
      if bool_decide (p = c) then strip_prefix prefix' s' else None
  | _ :: _, [] => None
  end.

(** The longest run of characters other than [stop] at the head of [s],
    and the text from there on. *)
Fixpoint span_until (stop : char) (s : str) : str * str :=
  match s with
  | [] => ([], [])
  | c :: s' =>
      if bool_decide (c = stop) then ([], s)
      else let (run, rest) := span_until stop s' in (c :: run, rest)
  end.

(** The Evidence pattern: the words up to [object>], any white space, an
    opening brace, one or more characters other than a closing brace
    (group 1), and a closing brace.  Each part is greedy, and no shorter
    choice can make a failed match succeed. *)
Definition match_evidence (s : str) : option (str * str) :=
  match strip_prefix (lit "Evidence = new Dictionary<string, object>") s with
  | None => None
  | Some after_words =>
      match lstrip after_words with
      | c :: after_brace =>
          if bool_decide (c = lbrace) then
            match span_until rbrace after_brace with
            | (group1, _ :: rest) =>
                if bool_decide (group1 = []) then None
                else Some (lit "Evidence = JsonSerializer.Serialize(new Dictionary<string, object> {"
                           ++ group1 ++ lit "})", rest)
            | (_, []) => None
            end
          else None
      | [] => None
      end
  end.

(** The description pattern is one fixed text, and so is its replacement. *)
Definition match_description (s : str) : option (str * str) :=
  match strip_prefix (lit "$" ++ [dquote] ++ lit "{control.Title}: {control.Description}"
                      ++ [dquote]) s with
  | None => None
  | Some rest =>
      Some (lit "control.Title ?? " ++ [dquote]
            ++ lit "Manual review required for this control" ++ [dquote], rest)
  end.

(** What the script takes from its platform: the file system behind
    [open]. *)
Class Platform : Type := {
  files : Type;
  (** [with open(filepath, 'r') as f: f.read()] *)
  read_text : str → files → exn + str;
  (** [with open(filepath, 'w') as f: f.write(content)]; a failed write
      may still have changed the file system (the file is truncated when
      it is opened). *)
  write_text : str → str → files → option exn * files;
}.

Section Driver.
Context `{Platform}.

(** The file system and the two console streams, as lists of the texts
    printed to them. *)
Record world : Type := World {
  fs : files;
  stdout : list str;
  stderr : list str;
}.

Definition set_fs (fs' : files) (w : world) : world :=
  {| fs := fs'; stdout := stdout w; stderr := stderr w |}.

(** [print(s)] *)
Definition print (s : str) (w : world) : world :=
  {| fs := fs w; stdout := stdout w ++ [s]; stderr := stderr w |}.

(** [print(s, file=sys.stderr)] *)
Definition print_stderr (s : str) (w : world) : world :=
  {| fs := fs w; stdout := stdout w; stderr := stderr w ++ [s] |}.

Definition fixed_message (filepath : str) : str := lit "Fixed " ++ filepath.

Definition error_message (filepath : str) (e : exn) : str :=
  lit "Error fixing " ++ filepath ++ lit ": " ++ exn_str e.

(** The result is [inl e] when the call raises [e], with the world as the
    call left it. *)
Definition fix_scanner_file (filepath : str) (w : world) : (exn + unit) * world :=
  match read_text filepath (fs w) with
  | inl e => (inl e, w)
  | inr content =>
      let content := re_sub match_evidence 0 content in
      let content := re_sub match_description 0 content in
      match write_text filepath content (fs w) with
      | (Some e, fs') => (inl e, set_fs fs' w)
      | (None, fs') => (inr tt, print (fixed_message filepath) (set_fs fs' w))
      end
  end.

Definition scanner_files : list str :=
  [ lit "src/Platform.Engineering.Copilot.Core/Services/Compliance/Scanners/ContingencyPlanningScanner.cs";
    lit "src/Platform.Engineering.Copilot.Core/Services/Compliance/Scanners/IdentificationAuthenticationScanner.cs";
    lit "src/Platform.Engineering.Copilot.Core/Services/Compliance/Scanners/ConfigurationManagementScanner.cs";
    lit "src/Platform.Engineering.Copilot.Core/Services/Compliance/Scanners/IncidentResponseScanner.cs";
    lit "src/Platform.Engineering.Copilot.Core/Services/Compliance/Scanners/RiskAssessmentScanner.cs";
    lit "src/Platform.Engineering.Copilot.Core/Services/Compliance/Scanners/SecurityAssessmentScanner.cs" ].

(** One turn of the driver's loop: the [try] ... [except Exception as e]
    around the call. *)
Definition try_fix (w : world) (filepath : str) : world :=
  match fix_scanner_file filepath w with
  | (inr _, w') => w'
  | (inl e, w') => print_stderr (error_message filepath e) w'
  end.

(** The loop over any list of paths, and the script's main block. *)
Definition run_batch (paths : list str) (w : world) : world :=
  fold_left try_fix paths w.

Definition main (w : world) : world := run_batch scanner_files w.

(** What each call of [fix_scanner_file] in the loop came to, in the
    order of the calls: every call is made in the world the turns before
    it have left. *)
Fixpoint call_results (paths : list str) (w : world) : list (exn + unit) :=
  match paths with
  | [] => []
  | filepath :: paths' =>
      (fix_scanner_file filepath w).1 :: call_results paths' (try_fix w filepath)
  end.

(** What the console shows for a file once its turn is over. *)
Definition outcome_stdout (r : str * (exn + unit)) : option str :=
  match r.2 with
  | inr _ => Some (fixed_message r.1)
  | inl _ => None
  end.

Definition outcome_stderr (r : str * (exn + unit)) : option str :=
  match r.2 with
  | inr _ => None
  | inl e => Some (error_message r.1 e)
  end.

End Driver.

(** A platform to run the driver on: a disk of text files, given as the
    list of its paths with their texts, each file readable and writable;
    a path with no file cannot be read. *)
Fixpoint disk_lookup (filepath : str) (disk : list (list N * list N)) : option str :=
  match disk with
  | [] => None
  | (name, content) :: disk' =>
      if bool_decide (name = filepath) then Some content
      else disk_lookup filepath disk'
  end.

Fixpoint disk_store (filepath content : str) (disk : list (list N * list N))
    : list (list N * list N) :=
  match disk with
  | [] => [(filepath, content)]
  | (name, old) :: disk' =>
      if bool_decide (name = filepath) then (name, content) :: disk'
      else (name, old) :: disk_store filepath content disk'
  end.

Definition text_disk : Platform := {|
  files := list (list N * list N);
  read_text filepath disk :=
    match disk_lookup filepath disk with
    | Some content => inr content
    | None => inl (OSError (lit "[Errno 2] No such file or directory: " ++ filepath))
    end;
  write_text filepath content disk := (None, disk_store filepath content disk);
|}.

(** A disk that holds only the incident response scanner. *)
Definition incident_scanner_path : list N :=
  lit "src/Platform.Engineering.Copilot.Core/Services/Compliance/Scanners/IncidentResponseScanner.cs".

Definition one_scanner_disk : @world text_disk :=
  @World text_disk
    [(incident_scanner_path, lit "Evidence = new Dictionary<string, object> { a }")]
    [] [].

(** A disk that holds all six scanner files, each with the same text, and
    what it means for a disk to hold them. *)
Definition full_disk : @world text_disk :=
  @World text_disk
    ((λ filepath,
        (filepath,
         lit "Evidence = new Dictionary<string, object> { a }; Description = $"
         ++ [dquote] ++ lit "{control.Title}: {control.Description}" ++ [dquote]))
       <$> scanner_files)
    [] [].

Definition holds_scanners (disk : list (list N * list N)) : Prop :=
  Forall (λ filepath, is_Some (disk_lookup filepath disk)) scanner_files.

(** * Properties

    ** Splitting and joining *)

Lemma split_cons sep s : ∃ w ws, split sep s = w :: ws.
Proof.
  induction s as [|c s [w [ws IH]]]; simpl; [by eexists _, _|].
  case_bool_decide; [by eexists _, _|]. rewrite IH. by eexists _, _.
Qed.

Lemma split_no_sep sep s : Forall (λ p, sep ∉ p) (split sep s).
Proof.
  induction s as [|c s IH]; simpl.
  - constructor; [apply not_elem_of_nil | constructor].
  - case_bool_decide as Hc.
    + constructor; [apply not_elem_of_nil | done].
    + destruct (split sep s) as [|w ws].
      * constructor; [|constructor].
        rewrite elem_of_cons, elem_of_nil. intros [->|[]]. by apply Hc.
      * apply Forall_cons in IH as [Hw Hws]. constructor; [|done].
        rewrite elem_of_cons. intros [->|Hin]; [by apply Hc | by apply Hw].
Qed.

Lemma split_piece sep p : sep ∉ p → split sep p = [p].
Proof.
  induction p as [|c p IH]; simpl; [done|].
  rewrite not_elem_of_cons. intros [Hc Hp].
  rewrite bool_decide_false by done. by rewrite IH.
Qed.

Lemma split_app sep p s :
  sep ∉ p → split sep (p ++ sep :: s) = p :: split sep s.
Proof.
  induction p as [|c p IH]; simpl.
  - intros _. by rewrite bool_decide_true.
  - rewrite not_elem_of_cons. intros [Hc Hp].
    rewrite bool_decide_false by done. by rewrite IH.
Qed.

Lemma split_join sep pieces :
  pieces ≠ [] → Forall (λ p, sep ∉ p) pieces →
  split sep (join [sep] pieces) = pieces.
Proof.
  induction pieces as [|p ps IH]; [done|]. intros _ Hall.
  apply Forall_cons in Hall as [Hp Hps].
  destruct ps as [|q ps]; simpl.
  - by apply split_piece.
  - rewrite split_app by done. f_equal. by apply IH.
Qed.

Lemma join_cons2 sep p q ps :
  join sep (p :: q :: ps) = p ++ sep ++ join sep (q :: ps).
Proof. reflexivity. Qed.

Lemma join_split sep s : join [sep] (split sep s) = s.
Proof.
  induction s as [|c s IH]; simpl; [done|].
  destruct (split_cons sep s) as [w [ws Hs]]. rewrite Hs in IH |- *.
  case_bool_decide as Hc.
  - subst c. rewrite join_cons2, IH. done.
  - destruct ws as [|w' ws]; [simpl in *; by subst|].
    rewrite join_cons2 in IH |- *. by rewrite <- IH.
Qed.

(** ** Trimming *)

Lemma lstrip_elem c s : c ∈ lstrip s → c ∈ s.
Proof.
  induction s as [|d s IH]; simpl; [done|].
  destruct (isspace d); [|done]. intros H. apply elem_of_cons. right. by apply IH.
Qed.

Lemma strip_elem c s : c ∈ strip s → c ∈ s.
Proof.
  unfold strip, rstrip. rewrite elem_of_reverse. intros H.
  apply lstrip_elem in H. rewrite elem_of_reverse in H. by apply lstrip_elem.
Qed.

Lemma strip_nil : strip [] = [].
Proof. reflexivity. Qed.

Lemma strip_no_nl line : nl ∉ line → nl ∉ strip line.
Proof. intros Hline Hin. by apply Hline, strip_elem. Qed.

(** ** The loop of the converter *)

Lemma convert_line_unfold output line :
  convert_line output line =
  if bool_decide (strip line ∈ delimiters) then output
  else output ++ [append_stmt (strip line)].
Proof.
  unfold convert_line, append_stmt. case_bool_decide; [done|]. simpl.
  case_bool_decide; [done|]. by destruct (_ && _).
Qed.

Lemma fold_convert_line lines output :
  fold_left convert_line lines output =
  output ++ ((λ line, append_stmt (strip line)) <$>
              filter (λ line, strip line ∉ delimiters) lines).
Proof.
  revert output. induction lines as [|line lines IH]; intros output; simpl.
  - by rewrite app_nil_r.
  - rewrite IH, convert_line_unfold. case_bool_decide as Hd.
    + rewrite filter_cons_False; [done|]. by intros [].
    + rewrite filter_cons_True by done. simpl. by rewrite <- app_assoc.
Qed.

Lemma convert_unfold raw :
  convert_raw_string_to_stringbuilder raw =
  join [nl] (init_stmt
             :: ((λ line, append_stmt (strip line)) <$> non_delimiter_lines raw)
             ++ [return_stmt]).
Proof.
  unfold convert_raw_string_to_stringbuilder, non_delimiter_lines, block_lines.
  by rewrite fold_convert_line.
Qed.

(** No statement the converter writes contains a line break, provided
    the content it wraps has none. *)
Lemma literal_stmt_no_nl c : nl ∉ c → nl ∉ literal_stmt c.
Proof.
  intros Hc. unfold literal_stmt. rewrite !not_elem_of_app.
  repeat split; try done; by apply (bool_decide_unpack _).
Qed.

Lemma interpolated_stmt_no_nl c : nl ∉ c → nl ∉ interpolated_stmt c.
Proof.
  intros Hc. unfold interpolated_stmt. rewrite !not_elem_of_app.
  repeat split; try done; by apply (bool_decide_unpack _).
Qed.

Lemma append_stmt_no_nl c : nl ∉ c → nl ∉ append_stmt c.
Proof.
  intros Hc. unfold append_stmt. case_bool_decide.
  - by apply (bool_decide_unpack _).
  - destruct (_ && _); [by apply interpolated_stmt_no_nl | by apply literal_stmt_no_nl].
Qed.

Lemma block_lines_no_nl raw : Forall (λ line, nl ∉ line) (block_lines raw).
Proof. apply split_no_sep. Qed.

Lemma statements_no_nl raw :
  Forall (λ stmt, nl ∉ stmt)
         ((λ line, append_stmt (strip line)) <$> non_delimiter_lines raw).
Proof.
  apply Forall_fmap, Forall_forall. intros line Hin. simpl.
  apply append_stmt_no_nl, strip_no_nl.
  apply list_elem_of_filter in Hin as [_ Hin].
  pose proof (block_lines_no_nl raw) as Hall.
  rewrite Forall_forall in Hall. by apply Hall.
Qed.

Lemma convert_output_lines raw :
  output_lines (convert_raw_string_to_stringbuilder raw) =
  init_stmt
  :: ((λ line, append_stmt (strip line)) <$> non_delimiter_lines raw)
  ++ [return_stmt].
Proof.
  unfold output_lines. rewrite convert_unfold. apply split_join; [done|].
  constructor; [by apply (bool_decide_unpack _)|].
  apply Forall_app. split; [apply statements_no_nl|].
  constructor; [by apply (bool_decide_unpack _) | constructor].
Qed.

Lemma convert_append_statements raw :
  append_statements (convert_raw_string_to_stringbuilder raw) =
  (λ line, append_stmt (strip line)) <$> non_delimiter_lines raw.
Proof.
  unfold append_statements. rewrite convert_output_lines. simpl.
  apply removelast_last.
Qed.

(** ** The shape of the statements *)

Lemma append_stmt_content content : appends_content content (append_stmt content).
Proof.
  unfold appends_content, append_stmt. case_bool_decide as Hc; [by left|].
  right. split; [done|]. destruct (_ && _); [by right | by left].
Qed.

Lemma append_stmt_not_init content : append_stmt content ≠ init_stmt.
Proof.
  unfold append_stmt. case_bool_decide; [done|]. by destruct (_ && _).
Qed.

Lemma append_stmt_not_return content : append_stmt content ≠ return_stmt.
Proof.
  unfold append_stmt. case_bool_decide; [done|]. by destruct (_ && _).
Qed.

Lemma literal_stmt_inj c1 c2 : literal_stmt c1 = literal_stmt c2 → c1 = c2.
Proof.
  unfold literal_stmt. intros Heq%app_inv_head%app_inv_head.
  by apply app_inv_tail in Heq.
Qed.

Lemma interpolated_stmt_inj c1 c2 :
  interpolated_stmt c1 = interpolated_stmt c2 → c1 = c2.
Proof.
  unfold interpolated_stmt. intros Heq%app_inv_head%app_inv_head.
  by apply app_inv_tail in Heq.
Qed.

Lemma literal_not_interpolated c1 c2 : literal_stmt c1 ≠ interpolated_stmt c2.
Proof. done. Qed.

Lemma blank_not_literal c : blank_stmt ≠ literal_stmt c.
Proof. done. Qed.

Lemma blank_not_interpolated c : blank_stmt ≠ interpolated_stmt c.
Proof. done. Qed.

Lemma append_stmt_literal c m : append_stmt c = literal_stmt m → c = m.
Proof.
  unfold append_stmt. case_bool_decide.
  - intros Heq. by apply blank_not_literal in Heq.
  - destruct (_ && _); intros Heq.
    + symmetry in Heq. by apply literal_not_interpolated in Heq.
    + by apply literal_stmt_inj.
Qed.

Lemma append_stmt_interpolated c m : append_stmt c = interpolated_stmt m → c = m.
Proof.
  unfold append_stmt. case_bool_decide.
  - intros Heq. by apply blank_not_interpolated in Heq.
  - destruct (_ && _); intros Heq.
    + by apply interpolated_stmt_inj.
    + by apply literal_not_interpolated in Heq.
Qed.

Lemma filter_none {A} (P : A → Prop) `{!∀ x, Decision (P x)} (l : list A) :
  Forall (λ x, ¬ P x) l → filter P l = [].
Proof.
  induction 1 as [|x l Hx _ IH]; [done|]. by rewrite filter_cons_False.
Qed.

(** ** Sample runs *)

Example strip_sample :
  strip ([9; 32] ++ lit "a  b" ++ [160; 13; nl]) = lit "a  b".
Proof. vm_compute. reflexivity. Qed.

Example split_sample :
  split nl ([nl] ++ lit "a" ++ [nl; nl] ++ lit "b") = [[]; lit "a"; []; lit "b"]
  ∧ split nl [] = [[]]
  ∧ split nl (lit "a" ++ [nl]) = [lit "a"; []].
Proof. vm_compute. done. Qed.

(** The example of the function's docstring. *)
Example docstring_example :
  convert_raw_string_to_stringbuilder
    (lit "        return $" ++ triple_quote ++ [nl]
     ++ lit "            # Title" ++ [nl]
     ++ lit "            **Property:** {value}" ++ [nl]
     ++ lit "            " ++ triple_quote ++ lit ";" ++ [nl]
     ++ lit "            ")
  = join [nl] [ lit "var sb = new StringBuilder();";
                lit "sb.AppendLine(" ++ [dquote] ++ lit "# Title" ++ [dquote] ++ lit ");";
                lit "sb.AppendLine($" ++ [dquote] ++ lit "**Property:** {value}"
                  ++ [dquote] ++ lit ");";
                lit "return sb.ToString();" ].
Proof. vm_compute. reflexivity. Qed.

(** Scenario 1 of the specification: delimiters around one literal line. *)
Example scenario_single_literal :
  convert_raw_string_to_stringbuilder
    (lit "return $" ++ triple_quote ++ [nl] ++ lit "  Hello" ++ [nl]
     ++ triple_quote ++ lit ";")
  = join [nl] [init_stmt; literal_stmt (lit "Hello"); return_stmt].
Proof. vm_compute. reflexivity. Qed.

(** A line of the input that spells the initialization statement is
    appended like any other text: it comes out quoted, inside an append
    statement, and not as a statement of its own. *)
Example statement_text_is_quoted :
  output_lines (convert_raw_string_to_stringbuilder (lit "var sb = new StringBuilder();"))
  = [init_stmt; literal_stmt (lit "var sb = new StringBuilder();"); return_stmt].
Proof. vm_compute. reflexivity. Qed.

(** Brace presence is all that is looked at: a closing brace before an
    opening one makes the line interpolated, a lone brace does not. *)
Example braces_in_any_order :
  output_lines (convert_raw_string_to_stringbuilder
                  (lit "} then {" ++ [nl] ++ lit "only {" ++ [nl] ++ lit "only }"))
  = [ init_stmt;
      interpolated_stmt (lit "} then {");
      literal_stmt (lit "only {");
      literal_stmt (lit "only }");
      return_stmt ].
Proof. vm_compute. reflexivity. Qed.

(** ** The files as shipped *)

Lemma converter_source_error :
  load_error_of converter_source = Some (IndentationError 15).
Proof. vm_compute. reflexivity. Qed.

(** The docstring that opens on line 8 is still open when line 12 has
    been read (a file that stopped there would be an unfinished string)
    and is over after line 13, where the three quotes that follow
    [return $] close it; line 15 then comes with indentation 12 into a
    block of indentation 4. *)
Example docstring_ends_on_line_13 :
  load_error_of (take 12 converter_source) = Some (SyntaxError 8)
  ∧ load_error_of (take 13 converter_source) = None
  ∧ indentation (converter_source !!! 14%nat) = 12%nat.
Proof. vm_compute. done. Qed.

(** Without lines 8 to 23 the same reading finds no fault, and it finds
    none in the other script. *)
Example converter_loads_without_docstring :
  load_error_of (take 7 converter_source ++ drop 23 converter_source) = None.
Proof. vm_compute. reflexivity. Qed.

Example fix_scanners_source_loads : load_error_of fix_scanners_source = None.
Proof. vm_compute. reflexivity. Qed.

(** C6.  In the file as shipped no call of the converter returns: for
    every input, loading the file raises [IndentationError] at line 15
    before the function is defined. *)
Theorem shipped_converter_never_returns (raw : list N) :
  call_shipped_converter raw = inl (IndentationError 15).
Proof. unfold call_shipped_converter. by rewrite converter_source_error. Qed.

(** ** Properties of the converter

    All of them are properties of the function body (lines 24 to 52). *)

(** C1, for the function body.  The output is the initialization statement, then one append
    statement for every line of the trimmed input that is not a delimiter
    line, in input order and carrying that line's trimmed content, then
    the materialize statement: [n] such lines give exactly [n] append
    statements, none dropped and none repeated. *)
Theorem one_append_per_kept_line (raw : str) :
  let out := convert_raw_string_to_stringbuilder raw in
  output_lines out = init_stmt :: append_statements out ++ [return_stmt]
  ∧ length (append_statements out) = length (non_delimiter_lines raw)
  ∧ Forall2 (λ line stmt, appends_content (strip line) stmt)
            (non_delimiter_lines raw) (append_statements out).
Proof.
  simpl. rewrite convert_append_statements, convert_output_lines.
  split; [done|]. split; [by rewrite length_fmap|].
  apply Forall2_fmap_r, Forall_Forall2_diag, Forall_forall.
  intros line _. apply append_stmt_content.
Qed.

(** C2, for the function body.  The first line of the output is the initialization statement,
    the last line is the materialize statement, no line between them is
    either of the two, and so each of the two is a line of the output
    exactly once. *)
Theorem init_first_return_last (raw : str) :
  let out := convert_raw_string_to_stringbuilder raw in
  head (output_lines out) = Some init_stmt
  ∧ last (output_lines out) = Some return_stmt
  ∧ output_lines out = init_stmt :: append_statements out ++ [return_stmt]
  ∧ (init_stmt ∉ append_statements out)
  ∧ (return_stmt ∉ append_statements out)
  ∧ length (filter (λ stmt, stmt = init_stmt) (output_lines out)) = 1%nat
  ∧ length (filter (λ stmt, stmt = return_stmt) (output_lines out)) = 1%nat.
Proof.
  simpl. rewrite convert_append_statements, convert_output_lines.
  set (appends := _ <$> non_delimiter_lines raw).
  assert (init_stmt ∉ appends) as Hinit.
  { intros (line & Heq & _)%list_elem_of_fmap. symmetry in Heq.
    by apply append_stmt_not_init in Heq. }
  assert (return_stmt ∉ appends) as Hreturn.
  { intros (line & Heq & _)%list_elem_of_fmap. symmetry in Heq.
    by apply append_stmt_not_return in Heq. }
  split; [done|]. split; [by rewrite last_cons, last_snoc|].
  do 3 (split; [done|]). split.
  - rewrite filter_cons_True, filter_app by done.
    rewrite (filter_none _ appends), filter_cons_False; [done | done |].
    apply Forall_forall. by intros stmt Hin ->.
  - rewrite filter_cons_False, filter_app by done.
    rewrite (filter_none _ appends), filter_cons_True; [done | done |].
    apply Forall_forall. by intros stmt Hin ->.
Qed.

(** C3, for the function body.  A kept line that is not blank is classified by brace presence
    alone: when its trimmed content holds an opening and a closing brace,
    wherever they stand, its statement is the interpolated append; when
    either brace is missing its statement is the plain literal append. *)
Theorem classified_by_brace_presence (raw : str) (i : nat) (line : str) :
  non_delimiter_lines raw !! i = Some line →
  strip line ≠ [] →
  let appends := append_statements (convert_raw_string_to_stringbuilder raw) in
  (lbrace ∈ strip line ∧ rbrace ∈ strip line
   ∧ appends !! i = Some (interpolated_stmt (strip line)))
  ∨ ((lbrace ∉ strip line ∨ rbrace ∉ strip line)
     ∧ appends !! i = Some (literal_stmt (strip line))).
Proof.
  intros Hline Hcontent. simpl.
  rewrite convert_append_statements, list_lookup_fmap, Hline. simpl.
  unfold append_stmt. rewrite bool_decide_false by done.
  do 2 case_bool_decide; simpl; [left | right ..]; split; auto.
Qed.

(** Scenario 4: a line with a lone closing brace is appended as a literal. *)
Lemma classified_by_brace_presence_witness :
  let raw := lit "{x" ++ [nl] ++ lit "  Status: done}" in
  non_delimiter_lines raw !! 1%nat = Some (lit "  Status: done}")
  ∧ strip (lit "  Status: done}") ≠ []
  ∧ append_statements (convert_raw_string_to_stringbuilder raw) !! 1%nat
    = Some (literal_stmt (lit "Status: done}")).
Proof.
  simpl. split; [vm_compute; reflexivity|]. split; [vm_compute; discriminate|].
  destruct (classified_by_brace_presence
              (lit "{x" ++ [nl] ++ lit "  Status: done}") 1
              (lit "  Status: done}")) as [(Hopen & _ & _) | [_ Hstmt]].
  - vm_compute; reflexivity.
  - vm_compute; discriminate.
  - exfalso. revert Hopen. apply (bool_decide_unpack _). vm_compute. exact I.
  - exact Hstmt.
Defined.

(** C4, for the function body.  A line whose trimmed content is one of the four delimiter
    markers is skipped wherever it stands in the block: the output is the
    one the loop gives for the lines before and after it.  And no append
    statement of any output carries one of the markers as its content. *)
Theorem delimiter_lines_elided (raw : str) :
  (∀ pre d post,
     block_lines raw = pre ++ d :: post →
     strip d ∈ delimiters →
     convert_raw_string_to_stringbuilder raw =
     join [nl] (init_stmt :: fold_left convert_line (pre ++ post) [] ++ [return_stmt]))
  ∧ Forall (λ stmt,
      Forall (λ marker, stmt ≠ literal_stmt marker ∧ stmt ≠ interpolated_stmt marker)
             delimiters)
      (append_statements (convert_raw_string_to_stringbuilder raw)).
Proof.
  split.
  - intros pre d post Hlines Hd. rewrite convert_unfold, fold_convert_line.
    unfold non_delimiter_lines. rewrite Hlines, !filter_app.
    rewrite filter_cons_False; [done|]. by intros [].
  - rewrite convert_append_statements. apply Forall_fmap, Forall_forall.
    intros line [Hkept _]%list_elem_of_filter. simpl.
    apply Forall_forall. intros marker Hmarker.
    split; intros Heq.
    + apply append_stmt_literal in Heq. by subst.
    + apply append_stmt_interpolated in Heq. by subst.
Qed.

(** A closing marker between two lines of text leaves no trace. *)
Lemma delimiter_lines_elided_witness :
  let raw := lit "Title" ++ [nl] ++ lit "  " ++ triple_quote ++ [nl] ++ lit "Body" in
  block_lines raw = [lit "Title"] ++ (lit "  " ++ triple_quote) :: [lit "Body"]
  ∧ strip (lit "  " ++ triple_quote) ∈ delimiters
  ∧ convert_raw_string_to_stringbuilder raw =
    join [nl] (init_stmt
               :: fold_left convert_line ([lit "Title"] ++ [lit "Body"]) []
               ++ [return_stmt]).
Proof.
  simpl. split; [vm_compute; reflexivity|].
  split; [apply (bool_decide_unpack _); vm_compute; exact I|].
  apply (proj1 (delimiter_lines_elided
                  (lit "Title" ++ [nl] ++ lit "  " ++ triple_quote ++ [nl] ++ lit "Body"))
               [lit "Title"] (lit "  " ++ triple_quote) [lit "Body"]).
  - vm_compute; reflexivity.
  - apply (bool_decide_unpack _); vm_compute; exact I.
Defined.





(** C7, for the function body.  Scenario 2: an opening marker, an empty line, [Value: {x}] and a
    closing marker give the initialization, a blank append, an
    interpolated append and the materialize statement. *)
Theorem scenario_blank_then_interpolated :
  convert_raw_string_to_stringbuilder
    (lit "$" ++ triple_quote ++ [nl] ++ [nl] ++ lit "Value: {x}" ++ [nl] ++ triple_quote)
  = lit "var sb = new StringBuilder();" ++ [nl]
    ++ lit "sb.AppendLine();" ++ [nl]
    ++ lit "sb.AppendLine($" ++ [dquote] ++ lit "Value: {x}" ++ [dquote] ++ lit ");" ++ [nl]
    ++ lit "return sb.ToString();".
Proof. vm_compute. reflexivity. Qed.

Lemma append_stmt_form content : nl ∉ content → append_form (append_stmt content).
Proof.
  intros Hnl. unfold append_form, append_stmt. case_bool_decide; [by left|].
  right. exists content. split; [done|]. destruct (_ && _); [by right | by left].
Qed.

(** C10, for the function body.  Every output line other than the first and the last has one of
    the three append forms, with a text free of line breaks, so the
    output has two lines more than it has append statements. *)
Theorem output_shape (raw : str) :
  let out := convert_raw_string_to_stringbuilder raw in
  output_lines out = init_stmt :: append_statements out ++ [return_stmt]
  ∧ Forall append_form (append_statements out)
  ∧ length (output_lines out) = (2 + length (append_statements out))%nat.
Proof.
  simpl. rewrite convert_append_statements, convert_output_lines.
  split; [done|]. split.
  - apply Forall_fmap, Forall_forall. intros line [_ Hin]%list_elem_of_filter.
    simpl. apply append_stmt_form, strip_no_nl.
    pose proof (block_lines_no_nl raw) as Hall.
    rewrite Forall_forall in Hall. by apply Hall.
  - simpl. rewrite length_app. simpl. lia.
Qed.

(** ** The substitutions *)

Lemma re_sub_skip match_at (matched rest : list N) :
  re_sub match_at (length matched) (matched ++ rest) = re_sub match_at 0 rest.
Proof. induction matched as [|c matched IH]; simpl; [by destruct rest | done]. Qed.

(** Where the pattern matches, the match is replaced and the scan goes on
    after it; elsewhere a character is copied. *)
Lemma re_sub_match match_at (c : N) (matched rest replacement : list N) :
  match_at (c :: matched ++ rest) = Some (replacement, rest) →
  re_sub match_at 0 (c :: matched ++ rest)
  = replacement ++ re_sub match_at 0 rest.
Proof.
  intros Hmatch. simpl. rewrite Hmatch. f_equal.
  replace (length (matched ++ rest) - length rest)%nat with (length matched)
    by (rewrite length_app; lia).
  apply re_sub_skip.
Qed.

Lemma re_sub_no_match match_at (c : N) (s : list N) :
  match_at (c :: s) = None →
  re_sub match_at 0 (c :: s) = c :: re_sub match_at 0 s.
Proof. intros Hnone. simpl. by rewrite Hnone. Qed.

Lemma strip_prefix_Some (prefix s rest : list N) :
  strip_prefix prefix s = Some rest → s = prefix ++ rest.
Proof.
  revert s. induction prefix as [|p prefix IH]; intros s; simpl.
  - by intros [= ->].
  - destruct s as [|c s]; [done|]. case_bool_decide; [|done].
    intros Hrest%IH. by subst.
Qed.

Lemma lstrip_suffix (s : list N) : ∃ spaces, s = spaces ++ lstrip s.
Proof.
  induction s as [|c s [spaces IH]]; simpl; [by exists []|].
  destruct (isspace c); [|by exists []].
  exists (c :: spaces). simpl. by f_equal.
Qed.

Lemma span_until_app stop (s : list N) :
  s = (span_until stop s).1 ++ (span_until stop s).2.
Proof.
  induction s as [|c s IH]; simpl; [done|].
  case_bool_decide; [done|].
  destruct (span_until stop s) as [run rest]. simpl in *. by f_equal.
Qed.

Lemma nonempty_prefix_cons (prefix middle rest : list N) :
  prefix ≠ [] → ∃ c matched, prefix ++ middle ++ rest = c :: matched ++ rest.
Proof.
  destruct prefix as [|c prefix]; [done|]. intros _.
  exists c, (prefix ++ middle). simpl. by rewrite <- app_assoc.
Qed.

(** A match of either pattern covers at least one character and ends
    where the text that is still to be scanned begins. *)
Lemma match_evidence_suffix (s replacement rest : list N) :
  match_evidence s = Some (replacement, rest) →
  ∃ c matched, s = c :: matched ++ rest.
Proof.
  unfold match_evidence.
  destruct (strip_prefix _ s) as [after_words|] eqn:Hwords; [|done].
  apply strip_prefix_Some in Hwords.
  destruct (lstrip_suffix after_words) as [spaces Hspaces].
  destruct (lstrip after_words) as [|c after_brace]; [done|].
  case_bool_decide; [|done].
  pose proof (span_until_app rbrace after_brace) as Hspan.
  destruct (span_until rbrace after_brace) as [group1 [|d rest']]; [done|].
  case_bool_decide; [done|]. intros [= _ ->]. simpl in Hspan.
  rewrite Hwords, Hspaces, Hspan.
  replace (spaces ++ c :: group1 ++ d :: rest)
    with ((spaces ++ c :: group1 ++ [d]) ++ rest)
    by (rewrite <- app_assoc; simpl; by rewrite <- app_assoc).
  by apply nonempty_prefix_cons.
Qed.

Lemma match_description_suffix (s replacement rest : list N) :
  match_description s = Some (replacement, rest) →
  ∃ c matched, s = c :: matched ++ rest.
Proof.
  unfold match_description.
  destruct (strip_prefix _ s) as [rest'|] eqn:Hwords; [|done].
  apply strip_prefix_Some in Hwords. intros [= _ ->]. rewrite Hwords.
  by apply (nonempty_prefix_cons _ []).
Qed.

(** ** The substitutions on sample texts *)

Example re_sub_evidence_sample :
  re_sub match_evidence 0
    (lit "xEvidence = new Dictionary<string, object> " ++ [nl; 9] ++ lit "{ a = 1 }; {b}")
  = lit "xEvidence = JsonSerializer.Serialize(new Dictionary<string, object> { a = 1 }); {b}".
Proof. vm_compute. reflexivity. Qed.

Example re_sub_evidence_nested :
  re_sub match_evidence 0
    (lit "Evidence = new Dictionary<string, object>{Evidence = new Dictionary<string, object>{b}}")
  = lit "Evidence = JsonSerializer.Serialize(new Dictionary<string, object> {Evidence = new Dictionary<string, object>{b})}".
Proof. vm_compute. reflexivity. Qed.

Example re_sub_evidence_empty_group :
  re_sub match_evidence 0 (lit "Evidence = new Dictionary<string, object>{}")
  = lit "Evidence = new Dictionary<string, object>{}".
Proof. vm_compute. reflexivity. Qed.

Example re_sub_evidence_twice :
  re_sub match_evidence 0
    (lit "Evidence = new Dictionary<string, object> {a}Evidence = new Dictionary<string, object>{b}")
  = lit "Evidence = JsonSerializer.Serialize(new Dictionary<string, object> {a})Evidence = JsonSerializer.Serialize(new Dictionary<string, object> {b})".
Proof. vm_compute. reflexivity. Qed.

Example re_sub_description_sample :
  re_sub match_description 0
    (lit "a $" ++ [dquote] ++ lit "{control.Title}: {control.Description}" ++ [dquote] ++ lit " b")
  = lit "a control.Title ?? " ++ [dquote]
    ++ lit "Manual review required for this control" ++ [dquote] ++ lit " b".
Proof. vm_compute. reflexivity. Qed.

(** ** The batch driver *)

Section DriverProperties.
Context `{Platform}.

Lemma fix_scanner_file_streams (filepath : str) (w : world) :
  stdout (fix_scanner_file filepath w).2
  = stdout w ++ omap outcome_stdout [(filepath, (fix_scanner_file filepath w).1)]
  ∧ stderr (fix_scanner_file filepath w).2 = stderr w.
Proof.
  unfold fix_scanner_file. destruct (read_text filepath (fs w)) as [e|content]; simpl.
  - by rewrite app_nil_r.
  - destruct (write_text _ _ _) as [[e|] fs']; simpl; [by rewrite app_nil_r | done].
Qed.

Lemma try_fix_streams (w : world) (filepath : str) :
  stdout (try_fix w filepath)
  = stdout w ++ omap outcome_stdout [(filepath, (fix_scanner_file filepath w).1)]
  ∧ stderr (try_fix w filepath)
    = stderr w ++ omap outcome_stderr [(filepath, (fix_scanner_file filepath w).1)].
Proof.
  unfold try_fix.
  destruct (fix_scanner_file_streams filepath w) as [Hout Herr].
  destruct (fix_scanner_file filepath w) as [[e|[]] w']; simpl in *.
  - by rewrite Hout, Herr, app_nil_r.
  - by rewrite Hout, Herr, app_nil_r.
Qed.

(** Each path of the batch leaves exactly one report: [Fixed ...] on the
    standard output when its call returned, [Error fixing ...] on the
    standard error when it raised. *)
Lemma run_batch_streams (paths : list (list N)) (w : world) :
  ∃ outcomes : list (exn + unit),
    length outcomes = length paths
    ∧ stdout (run_batch paths w)
      = stdout w ++ omap outcome_stdout (zip paths outcomes)
    ∧ stderr (run_batch paths w)
      = stderr w ++ omap outcome_stderr (zip paths outcomes).
Proof.
  revert w. induction paths as [|filepath paths IH]; intros w.
  - exists []. simpl. by rewrite !app_nil_r.
  - destruct (IH (try_fix w filepath)) as (outcomes & Hlen & Hout & Herr).
    destruct (try_fix_streams w filepath) as [Hout1 Herr1].
    exists ((fix_scanner_file filepath w).1 :: outcomes).
    split; [simpl; by rewrite Hlen|].
    unfold run_batch in *. simpl fold_left.
    rewrite Hout, Herr, Hout1, Herr1, <- !app_assoc.
    split; f_equal; simpl; unfold outcome_stdout, outcome_stderr; simpl;
      by destruct (fix_scanner_file filepath w).1.
Qed.

(** C9.  When the call for one file of the list raises, the driver prints
    the error for that file on the standard error and goes on: every file
    after it in the list still gets its turn and leaves its own report. *)
Theorem failure_does_not_abort_batch
    (w : world) (pre post : list (list N)) (filepath : list N)
    (e : exn) (w' : world) :
  scanner_files = pre ++ filepath :: post →
  fix_scanner_file filepath (run_batch pre w) = (inl e, w') →
  main w = run_batch post (print_stderr (error_message filepath e) w')
  ∧ ∃ outcomes : list (exn + unit),
      length outcomes = length post
      ∧ stdout (main w) = stdout w' ++ omap outcome_stdout (zip post outcomes)
      ∧ stderr (main w)
        = stderr w' ++ error_message filepath e
                       :: omap outcome_stderr (zip post outcomes).
Proof.
  intros Hfiles Hraise.
  assert (main w = run_batch post (print_stderr (error_message filepath e) w'))
    as Hmain.
  { unfold main, run_batch. rewrite Hfiles, fold_left_app. simpl.
    unfold try_fix at 2. fold (run_batch pre w). by rewrite Hraise. }
  split; [done|]. rewrite Hmain.
  destruct (run_batch_streams post (print_stderr (error_message filepath e) w'))
    as (outcomes & Hlen & Hout & Herr).
  exists outcomes. split; [done|]. rewrite Hout, Herr. simpl.
  by rewrite <- app_assoc.
Qed.

End DriverProperties.

(** The whole run on that disk: one file fixed, five errors reported. *)
Example main_on_one_scanner_disk :
  stdout (@main text_disk one_scanner_disk)
  = [lit "Fixed " ++ incident_scanner_path]
  ∧ length (stderr (@main text_disk one_scanner_disk)) = 5%nat
  ∧ disk_lookup incident_scanner_path (@fs text_disk (@main text_disk one_scanner_disk))
    = Some (lit "Evidence = JsonSerializer.Serialize(new Dictionary<string, object> { a })").
Proof. vm_compute. done. Qed.

(** On the disk with one scanner the third file of the list cannot be
    read; the three files after it still get their turn. *)
Lemma failure_does_not_abort_batch_witness :
  let filepath := lit "src/Platform.Engineering.Copilot.Core/Services/Compliance/Scanners/ConfigurationManagementScanner.cs" in
  let e := OSError (lit "[Errno 2] No such file or directory: " ++ filepath) in
  scanner_files = take 2 scanner_files ++ filepath :: drop 3 scanner_files
  ∧ @fix_scanner_file text_disk filepath
      (@run_batch text_disk (take 2 scanner_files) one_scanner_disk)
    = (inl e, @run_batch text_disk (take 2 scanner_files) one_scanner_disk)
  ∧ ∃ outcomes : list (exn + unit),
      length outcomes = length (drop 3 scanner_files)
      ∧ stdout (@main text_disk one_scanner_disk)
        = stdout (@run_batch text_disk (take 2 scanner_files) one_scanner_disk)
          ++ omap outcome_stdout (zip (drop 3 scanner_files) outcomes)
      ∧ stderr (@main text_disk one_scanner_disk)
        = stderr (@run_batch text_disk (take 2 scanner_files) one_scanner_disk)
          ++ error_message filepath e
             :: omap outcome_stderr (zip (drop 3 scanner_files) outcomes).
Proof.
  intros filepath e.
  split; [vm_compute; reflexivity|]. split; [vm_compute; reflexivity|].
  apply (@failure_does_not_abort_batch text_disk one_scanner_disk
           (take 2 scanner_files) (drop 3 scanner_files) filepath e
           (@run_batch text_disk (take 2 scanner_files) one_scanner_disk)).
  - vm_compute; reflexivity.
  - vm_compute; reflexivity.
Defined.

(** * Further properties

    ** Trimming, in full *)

Lemma lstrip_starts_nonspace (s : list N) : starts_nonspace (lstrip s).
Proof.
  induction s as [|c s IH]; simpl; [done|].
  destruct (isspace c) eqn:Hc; [done | by simpl].
Qed.

Lemma lstrip_id (s : list N) : starts_nonspace s → lstrip s = s.
Proof. destruct s as [|c s]; simpl; [done|]. by intros ->. Qed.

Lemma lstrip_spaces_app (spaces s : list N) :
  Forall is_space spaces → lstrip (spaces ++ s) = lstrip s.
Proof.
  induction 1 as [|c spaces Hc _ IH]; simpl; [done|]. by rewrite Hc.
Qed.

Lemma lstrip_spaces (spaces : list N) : Forall is_space spaces → lstrip spaces = [].
Proof.
  intros Hall. rewrite <- (app_nil_r spaces). by rewrite lstrip_spaces_app.
Qed.

Lemma lstrip_nil_spaces (s : list N) : lstrip s = [] → Forall is_space s.
Proof.
  induction s as [|c s IH]; simpl; [by constructor|].
  destruct (isspace c) eqn:Hc; [|done]. intros Hs. constructor; [done | by apply IH].
Qed.

Lemma lstrip_app_nonempty (s rest : list N) :
  lstrip s ≠ [] → lstrip (s ++ rest) = lstrip s ++ rest.
Proof.
  induction s as [|c s IH]; simpl; [done|]. by destruct (isspace c).
Qed.

Lemma lstrip_decompose (s : list N) :
  ∃ spaces, s = spaces ++ lstrip s ∧ Forall is_space spaces.
Proof.
  induction s as [|c s (spaces & IH & Hall)]; simpl.
  - exists []. by split.
  - destruct (isspace c) eqn:Hc.
    + exists (c :: spaces). split; [simpl; by f_equal | by constructor].
    + exists []. by split.
Qed.

Lemma rstrip_ends_nonspace (s : list N) : ends_nonspace (rstrip s).
Proof.
  unfold ends_nonspace, rstrip. rewrite reverse_involutive.
  apply lstrip_starts_nonspace.
Qed.

Lemma rstrip_id (s : list N) : ends_nonspace s → rstrip s = s.
Proof.
  unfold ends_nonspace, rstrip. intros Hs.
  by rewrite lstrip_id, reverse_involutive.
Qed.

Lemma rstrip_app_spaces (s spaces : list N) :
  Forall is_space spaces → rstrip (s ++ spaces) = rstrip s.
Proof.
  intros Hall. unfold rstrip.
  by rewrite reverse_app, lstrip_spaces_app by by apply Forall_reverse.
Qed.

Lemma rstrip_decompose (s : list N) :
  ∃ spaces, s = rstrip s ++ spaces ∧ Forall is_space spaces.
Proof.
  destruct (lstrip_decompose (reverse s)) as (spaces & Hs & Hall).
  exists (reverse spaces). split; [|by apply Forall_reverse].
  unfold rstrip. rewrite <- reverse_app, <- Hs. by rewrite reverse_involutive.
Qed.

Lemma rstrip_starts_nonspace (s : list N) :
  starts_nonspace s → starts_nonspace (rstrip s).
Proof.
  intros Hs. destruct (rstrip_decompose s) as (spaces & Heq & _).
  destruct (rstrip s) as [|c t]; [done|]. rewrite Heq in Hs. exact Hs.
Qed.

Lemma strip_starts_nonspace (s : list N) : starts_nonspace (strip s).
Proof. apply rstrip_starts_nonspace, lstrip_starts_nonspace. Qed.

Lemma strip_ends_nonspace (s : list N) : ends_nonspace (strip s).
Proof. apply rstrip_ends_nonspace. Qed.

Lemma strip_id (s : list N) : starts_nonspace s → ends_nonspace s → strip s = s.
Proof. intros Hstart Hend. unfold strip. by rewrite lstrip_id, rstrip_id. Qed.

Lemma strip_idemp (s : list N) : strip (strip s) = strip s.
Proof. apply strip_id; [apply strip_starts_nonspace | apply strip_ends_nonspace]. Qed.

Lemma strip_spaces (spaces : list N) : Forall is_space spaces → strip spaces = [].
Proof. intros Hall. unfold strip. by rewrite lstrip_spaces. Qed.

Lemma strip_surrounded (before s after : list N) :
  Forall is_space before → Forall is_space after →
  strip (before ++ s ++ after) = strip s.
Proof.
  intros Hbefore Hafter. unfold strip. rewrite lstrip_spaces_app by done.
  destruct (lstrip s) as [|c t] eqn:Hs.
  - apply lstrip_nil_spaces in Hs.
    rewrite lstrip_spaces; [done|]. by apply Forall_app.
  - rewrite lstrip_app_nonempty by by rewrite Hs.
    rewrite Hs. by apply rstrip_app_spaces.
Qed.

(** ** The converter and white space

    Here and below, what is said of the converter is said of its function
    body (lines 24 to 52), as in the section on its properties. *)

(** X1, for the function body.  White space around the whole input, blank lines included, does
    not show in the output. *)
Theorem surrounding_whitespace_ignored (before raw after : list N) :
  Forall is_space before → Forall is_space after →
  convert_raw_string_to_stringbuilder (before ++ raw ++ after)
  = convert_raw_string_to_stringbuilder raw.
Proof.
  intros Hbefore Hafter. unfold convert_raw_string_to_stringbuilder.
  by rewrite strip_surrounded.
Qed.

Lemma surrounding_whitespace_ignored_witness :
  Forall is_space [nl; 32; 9] ∧ Forall is_space [13; nl; nl]
  ∧ convert_raw_string_to_stringbuilder ([nl; 32; 9] ++ lit "a {b}" ++ [13; nl; nl])
    = convert_raw_string_to_stringbuilder (lit "a {b}").
Proof.
  assert (Forall is_space [nl; 32; 9]) as Hbefore by (repeat constructor).
  assert (Forall is_space [13; nl; nl]) as Hafter by (repeat constructor).
  split; [exact Hbefore|]. split; [exact Hafter|].
  exact (surrounding_whitespace_ignored _ (lit "a {b}") _ Hbefore Hafter).
Defined.

(** X2, for the function body.  An input of white space only, the empty string included, is one
    blank line: the output is the initialization statement, one append
    without argument, and the materialize statement. *)
Theorem whitespace_only_input (raw : list N) :
  Forall is_space raw →
  convert_raw_string_to_stringbuilder raw
  = join [nl] [init_stmt; blank_stmt; return_stmt].
Proof.
  intros Hall. unfold convert_raw_string_to_stringbuilder.
  by rewrite strip_spaces.
Qed.

Lemma whitespace_only_input_witness :
  Forall is_space [32; nl; 9; nl; 160]
  ∧ convert_raw_string_to_stringbuilder [32; nl; 9; nl; 160]
    = join [nl] [init_stmt; blank_stmt; return_stmt].
Proof.
  assert (Forall is_space [32; nl; 9; nl; 160]) as Hall by (repeat constructor).
  split; [exact Hall | exact (whitespace_only_input _ Hall)].
Defined.

(** ** What the output of the function body keeps of the input *)

Lemma append_stmt_inj (c1 c2 : list N) : append_stmt c1 = append_stmt c2 → c1 = c2.
Proof.
  unfold append_stmt at 1. case_bool_decide as Hc1.
  - subst c1. unfold append_stmt. case_bool_decide; [done|].
    destruct (_ && _); intros Heq.
    + by apply blank_not_interpolated in Heq.
    + by apply blank_not_literal in Heq.
  - destruct (_ && _); intros Heq; symmetry in Heq.
    + by apply append_stmt_interpolated in Heq.
    + by apply append_stmt_literal in Heq.
Qed.

(** X3, for the function body.  Two inputs give the same output exactly when their non-delimiter
    lines have the same trimmed contents, line for line: indentation,
    trailing white space and delimiter lines are all that is lost. *)
Theorem output_determines_contents (raw1 raw2 : list N) :
  convert_raw_string_to_stringbuilder raw1 = convert_raw_string_to_stringbuilder raw2
  ↔ strip <$> non_delimiter_lines raw1 = strip <$> non_delimiter_lines raw2.
Proof.
  assert (∀ raw,
    append_statements (convert_raw_string_to_stringbuilder raw)
    = append_stmt <$> (strip <$> non_delimiter_lines raw)) as Happends.
  { intros raw. rewrite convert_append_statements.
    apply (list_fmap_compose strip append_stmt). }
  split.
  - intros Heq.
    assert (Inj (=) (=) append_stmt) as Hinj by exact append_stmt_inj.
    apply (inj (fmap append_stmt)). by rewrite <- !Happends, Heq.
  - intros Heq. rewrite !convert_unfold.
    pose proof (Happends raw1) as H1. pose proof (Happends raw2) as H2.
    rewrite convert_append_statements in H1, H2. by rewrite H1, H2, Heq.
Qed.

Lemma output_determines_contents_witness :
  strip <$> non_delimiter_lines (lit "    a {b}   " ++ [nl] ++ triple_quote ++ [nl] ++ lit " c")
  = strip <$> non_delimiter_lines (lit "a {b}" ++ [nl] ++ lit "c")
  ∧ convert_raw_string_to_stringbuilder
      (lit "    a {b}   " ++ [nl] ++ triple_quote ++ [nl] ++ lit " c")
    = convert_raw_string_to_stringbuilder (lit "a {b}" ++ [nl] ++ lit "c").
Proof.
  assert (strip <$> non_delimiter_lines
            (lit "    a {b}   " ++ [nl] ++ triple_quote ++ [nl] ++ lit " c")
          = strip <$> non_delimiter_lines (lit "a {b}" ++ [nl] ++ lit "c")) as Heq
    by (vm_compute; reflexivity).
  split; [exact Heq|].
  exact (proj2 (output_determines_contents _ _) Heq).
Defined.

(** ** Blocks put together by the function body *)

Lemma split_app_sep sep (s1 s2 : list N) :
  split sep (s1 ++ sep :: s2) = split sep s1 ++ split sep s2.
Proof.
  induction s1 as [|c s1 IH]; simpl.
  - by rewrite bool_decide_true.
  - case_bool_decide; [by rewrite IH|].
    rewrite IH. by destruct (split_cons sep s1) as (w & ws & ->).
Qed.

Lemma starts_nonspace_app (s rest : list N) :
  s ≠ [] → starts_nonspace s → starts_nonspace (s ++ rest).
Proof. by destruct s. Qed.

Lemma ends_nonspace_app (rest s : list N) :
  s ≠ [] → ends_nonspace s → ends_nonspace (rest ++ s).
Proof.
  unfold ends_nonspace. intros Hs Hend. rewrite reverse_app.
  apply starts_nonspace_app; [|done].
  intros Hnil. apply Hs. by rewrite <- (reverse_involutive s), Hnil.
Qed.

(** X4, for the function body.  Two trimmed, non-empty blocks joined by a line break convert to
    the statements of the first followed by the statements of the
    second. *)
Theorem blocks_concatenate (block1 block2 : list N) :
  strip block1 = block1 → block1 ≠ [] →
  strip block2 = block2 → block2 ≠ [] →
  append_statements (convert_raw_string_to_stringbuilder (block1 ++ [nl] ++ block2))
  = append_statements (convert_raw_string_to_stringbuilder block1)
    ++ append_statements (convert_raw_string_to_stringbuilder block2).
Proof.
  intros Hstrip1 Hne1 Hstrip2 Hne2.
  assert (strip (block1 ++ [nl] ++ block2) = block1 ++ [nl] ++ block2) as Hstrip.
  { apply strip_id.
    - apply starts_nonspace_app; [done|].
      rewrite <- Hstrip1. apply strip_starts_nonspace.
    - rewrite app_assoc. apply ends_nonspace_app; [done|].
      rewrite <- Hstrip2. apply strip_ends_nonspace. }
  rewrite !convert_append_statements. unfold non_delimiter_lines, block_lines.
  rewrite Hstrip, Hstrip1, Hstrip2. simpl.
  by rewrite split_app_sep, filter_app, fmap_app.
Qed.

Lemma blocks_concatenate_witness :
  strip (lit "# Title") = lit "# Title" ∧ lit "# Title" ≠ []
  ∧ strip (lit "{v}" ++ [nl] ++ lit "  end") = lit "{v}" ++ [nl] ++ lit "  end"
  ∧ lit "{v}" ++ [nl] ++ lit "  end" ≠ []
  ∧ append_statements
      (convert_raw_string_to_stringbuilder
         (lit "# Title" ++ [nl] ++ lit "{v}" ++ [nl] ++ lit "  end"))
    = append_statements (convert_raw_string_to_stringbuilder (lit "# Title"))
      ++ append_statements
           (convert_raw_string_to_stringbuilder (lit "{v}" ++ [nl] ++ lit "  end")).
Proof.
  assert (strip (lit "# Title") = lit "# Title") as H1 by (vm_compute; reflexivity).
  assert (lit "# Title" ≠ []) as H2 by (vm_compute; discriminate).
  assert (strip (lit "{v}" ++ [nl] ++ lit "  end") = lit "{v}" ++ [nl] ++ lit "  end")
    as H3 by (vm_compute; reflexivity).
  assert (lit "{v}" ++ [nl] ++ lit "  end" ≠ []) as H4 by (vm_compute; discriminate).
  do 4 (split; [assumption|]).
  exact (blocks_concatenate _ _ H1 H2 H3 H4).
Defined.

(** ** The batch driver, file by file *)

Section DriverReports.
Context `{Platform}.

Lemma outcome_lengths (paths : list (list N)) (outcomes : list (exn + unit)) :
  length outcomes = length paths →
  (length (omap outcome_stdout (zip paths outcomes))
   + length (omap outcome_stderr (zip paths outcomes)) = length paths)%nat.
Proof.
  revert outcomes. induction paths as [|filepath paths IH];
    intros [|r outcomes] Hlen; [done..|].
  injection Hlen as Hlen. specialize (IH _ Hlen).
  unfold outcome_stdout, outcome_stderr in *.
  destruct r; csimpl in *; lia.
Qed.

Lemma run_batch_call_results (paths : list (list N)) (w : world) :
  stdout (run_batch paths w)
  = stdout w ++ omap outcome_stdout (zip paths (call_results paths w))
  ∧ stderr (run_batch paths w)
    = stderr w ++ omap outcome_stderr (zip paths (call_results paths w))
  ∧ length (call_results paths w) = length paths.
Proof.
  revert w. induction paths as [|filepath paths IH]; intros w.
  - simpl. by rewrite !app_nil_r.
  - destruct (IH (try_fix w filepath)) as (Hout & Herr & Hlen).
    destruct (try_fix_streams w filepath) as [Hout1 Herr1].
    unfold run_batch in *. simpl fold_left. simpl call_results.
    rewrite Hout, Herr, Hout1, Herr1, <- !app_assoc.
    split; [|split; [|simpl; by rewrite Hlen]].
    + f_equal. unfold outcome_stdout. simpl.
      by destruct (fix_scanner_file filepath w).1.
    + f_equal. unfold outcome_stderr. simpl.
      by destruct (fix_scanner_file filepath w).1.
Qed.

(** X5.  Whatever happens to the files, a run over a list of paths adds
    one line per path to the console and takes none away, and the line
    is the one the call for that path calls for: [Fixed ...] on the
    standard output when the call returned, [Error fixing ...] with the
    call's exception on the standard error when it raised, each stream in
    list order. *)
Theorem one_report_per_path (paths : list (list N)) (w : world) :
  stdout (run_batch paths w)
  = stdout w ++ omap outcome_stdout (zip paths (call_results paths w))
  ∧ stderr (run_batch paths w)
    = stderr w ++ omap outcome_stderr (zip paths (call_results paths w))
  ∧ length (call_results paths w) = length paths
  ∧ (length (stdout (run_batch paths w)) + length (stderr (run_batch paths w))
     = length (stdout w) + length (stderr w) + length paths)%nat.
Proof.
  destruct (run_batch_call_results paths w) as (Hout & Herr & Hlen).
  do 3 (split; [done|]). rewrite Hout, Herr, !length_app.
  pose proof (outcome_lengths paths (call_results paths w) Hlen). lia.
Qed.

Lemma run_batch_unreadable (err : list N → exn) (paths : list (list N)) (w : world) :
  (∀ filepath, filepath ∈ paths → read_text filepath (fs w) = inl (err filepath)) →
  run_batch paths w
  = {| fs := fs w; stdout := stdout w;
       stderr := stderr w ++ ((λ filepath, error_message filepath (err filepath)) <$> paths) |}.
Proof.
  revert w. induction paths as [|filepath paths IH]; intros w Hread.
  - simpl. rewrite app_nil_r. by destruct w.
  - unfold run_batch in *. simpl fold_left.
    assert (try_fix w filepath
            = print_stderr (error_message filepath (err filepath)) w) as Hstep.
    { unfold try_fix, fix_scanner_file. rewrite Hread; [done|]. by left. }
    rewrite Hstep, IH.
    + simpl. by rewrite <- app_assoc.
    + intros q Hq. simpl. apply Hread. by right.
Qed.

(** X6.  When none of the six scanner files can be read, the run changes
    nothing on the disk, prints nothing on the standard output, and
    reports the six files on the standard error in the order of the
    list. *)
Theorem unreadable_files_only_reported (err : list N → exn) (w : world) :
  (∀ filepath, filepath ∈ scanner_files →
     read_text filepath (fs w) = inl (err filepath)) →
  main w
  = {| fs := fs w; stdout := stdout w;
       stderr := stderr w
                 ++ ((λ filepath, error_message filepath (err filepath)) <$> scanner_files) |}.
Proof. apply run_batch_unreadable. Qed.

(** X7.  A call that returns has written the file, with the text it read
    after both substitutions, and has printed its [Fixed ...] line; it
    has printed nothing else. *)
Theorem returned_means_written (filepath : list N) (w w' : world) :
  fix_scanner_file filepath w = (inr tt, w') →
  ∃ content,
    read_text filepath (fs w) = inr content
    ∧ write_text filepath
        (re_sub match_description 0 (re_sub match_evidence 0 content)) (fs w)
      = (None, fs w')
    ∧ stdout w' = stdout w ++ [fixed_message filepath]
    ∧ stderr w' = stderr w.
Proof.
  unfold fix_scanner_file.
  destruct (read_text filepath (fs w)) as [e|content]; [done|].
  destruct (write_text _ _ _) as [[e|] fs'] eqn:Hwrite; [done|].
  intros [= <-]. exists content. by rewrite Hwrite.
Qed.

End DriverReports.

Lemma unreadable_files_only_reported_witness :
  let err := λ filepath,
    OSError (lit "[Errno 2] No such file or directory: " ++ filepath) in
  let w := @World text_disk [] [lit "earlier output"] [] in
  (∀ filepath, filepath ∈ scanner_files →
     @read_text text_disk filepath (@fs text_disk w) = inl (err filepath))
  ∧ @main text_disk w
    = @World text_disk [] [lit "earlier output"]
        ([] ++ ((λ filepath, error_message filepath (err filepath)) <$> scanner_files)).
Proof.
  intros err w.
  assert (∀ filepath, filepath ∈ scanner_files →
            @read_text text_disk filepath (@fs text_disk w) = inl (err filepath))
    as Hread by (intros filepath _; reflexivity).
  split; [exact Hread|].
  exact (@unreadable_files_only_reported text_disk err w Hread).
Defined.

Lemma returned_means_written_witness :
  let w' := @World text_disk
    [(incident_scanner_path,
      lit "Evidence = JsonSerializer.Serialize(new Dictionary<string, object> { a })")]
    [fixed_message incident_scanner_path] [] in
  @fix_scanner_file text_disk incident_scanner_path one_scanner_disk = (inr tt, w')
  ∧ ∃ content,
      @read_text text_disk incident_scanner_path (@fs text_disk one_scanner_disk)
      = inr content
      ∧ @write_text text_disk incident_scanner_path
          (re_sub match_description 0 (re_sub match_evidence 0 content))
          (@fs text_disk one_scanner_disk)
        = (None, @fs text_disk w')
      ∧ @stdout text_disk w'
        = @stdout text_disk one_scanner_disk ++ [fixed_message incident_scanner_path]
      ∧ @stderr text_disk w' = @stderr text_disk one_scanner_disk.
Proof.
  intros w'.
  assert (@fix_scanner_file text_disk incident_scanner_path one_scanner_disk
          = (inr tt, w')) as Hfix by (vm_compute; reflexivity).
  split; [exact Hfix|].
  exact (@returned_means_written text_disk incident_scanner_path one_scanner_disk w' Hfix).
Defined.

(** ** What the substitutions rewrite *)

Lemma strip_prefix_app (prefix rest : list N) :
  strip_prefix prefix (prefix ++ rest) = Some rest.
Proof.
  induction prefix as [|p prefix IH]; simpl; [by destruct rest|].
  by rewrite bool_decide_true.
Qed.

Lemma span_until_found stop (run rest : list N) :
  stop ∉ run → span_until stop (run ++ stop :: rest) = (run, stop :: rest).
Proof.
  induction run as [|c run IH]; simpl.
  - intros _. by rewrite bool_decide_true.
  - rewrite not_elem_of_cons. intros [Hc Hrun].
    rewrite bool_decide_false by done. by rewrite IH.
Qed.

Lemma span_until_stop stop (s run rest : list N) (d : N) :
  span_until stop s = (run, d :: rest) → d = stop.
Proof.
  revert run. induction s as [|c s IH]; intros run; simpl; [done|].
  case_bool_decide as Hc; [by intros [= _ -> _]|].
  destruct (span_until stop s) as [run' rest'] eqn:Hspan.
  intros [= _ ->]. by eapply IH.
Qed.

Lemma re_sub_pass match_at (passed s : list N) :
  Forall (λ c, ∀ s', match_at (c :: s') = None) passed →
  re_sub match_at 0 (passed ++ s) = passed ++ re_sub match_at 0 s.
Proof.
  induction 1 as [|c passed Hc _ IH]; [done|].
  simpl app. by rewrite re_sub_no_match, IH.
Qed.

Lemma re_sub_match_app match_at (matched rest replacement : list N) :
  matched ≠ [] →
  match_at (matched ++ rest) = Some (replacement, rest) →
  re_sub match_at 0 (matched ++ rest) = replacement ++ re_sub match_at 0 rest.
Proof.
  destruct matched as [|c matched]; [done|]. intros _. apply re_sub_match.
Qed.

Lemma re_sub_unmatched match_at (s : list N) :
  (∀ before t, s = before ++ t → match_at t = None) →
  re_sub match_at 0 s = s.
Proof.
  induction s as [|c s IH]; intros Hnone; [done|].
  rewrite re_sub_no_match by by apply (Hnone []).
  f_equal. apply IH. intros before t ->. by apply (Hnone (c :: before)).
Qed.

Lemma match_evidence_head (c : N) (s : list N) :
  c ≠ 69 → match_evidence (c :: s) = None.
Proof.
  intros Hc. unfold match_evidence.
  change (lit "Evidence = new Dictionary<string, object>")
    with (69 :: lit "vidence = new Dictionary<string, object>").
  simpl strip_prefix. by rewrite bool_decide_false.
Qed.

Lemma match_description_head (c : N) (s : list N) :
  c ≠ 36 → match_description (c :: s) = None.
Proof.
  intros Hc. unfold match_description. simpl strip_prefix.
  change (N_of_ascii "$") with 36. by rewrite bool_decide_false.
Qed.

Lemma match_evidence_braces (s replacement rest : list N) :
  match_evidence s = Some (replacement, rest) → lbrace ∈ s ∧ rbrace ∈ s.
Proof.
  unfold match_evidence.
  destruct (strip_prefix _ s) as [after_words|] eqn:Hwords; [|done].
  apply strip_prefix_Some in Hwords.
  destruct (lstrip_suffix after_words) as [spaces Hspaces].
  destruct (lstrip after_words) as [|c after_brace]; [done|].
  case_bool_decide as Hc; [|done]. subst c.
  pose proof (span_until_app rbrace after_brace) as Hspan.
  destruct (span_until rbrace after_brace) as [group1 [|d rest']] eqn:Hrun; [done|].
  apply span_until_stop in Hrun. subst d. intros _. simpl in Hspan.
  rewrite Hwords, Hspaces, Hspan. split.
  - rewrite !elem_of_app. right. right. by left.
  - rewrite !elem_of_app. right. right. right. rewrite elem_of_app. right. by left.
Qed.

Lemma match_description_braces (s replacement rest : list N) :
  match_description s = Some (replacement, rest) → lbrace ∈ s ∧ rbrace ∈ s.
Proof.
  unfold match_description.
  destruct (strip_prefix _ s) as [rest'|] eqn:Hwords; [|done].
  apply strip_prefix_Some in Hwords. intros _. rewrite Hwords.
  split; apply elem_of_app; left; by apply (bool_decide_unpack _).
Qed.

Lemma match_evidence_at (spaces body rest : list N) :
  Forall is_space spaces → body ≠ [] → rbrace ∉ body →
  match_evidence (lit "Evidence = new Dictionary<string, object>"
                  ++ spaces ++ [lbrace] ++ body ++ [rbrace] ++ rest)
  = Some (lit "Evidence = JsonSerializer.Serialize(new Dictionary<string, object> {"
          ++ body ++ lit "})", rest).
Proof.
  intros Hspaces Hbody Hclose. unfold match_evidence.
  rewrite strip_prefix_app, lstrip_spaces_app by done.
  rewrite lstrip_id by done.
  change ([lbrace] ++ body ++ [rbrace] ++ rest) with (lbrace :: body ++ rbrace :: rest).
  cbv beta iota. rewrite bool_decide_true by done.
  rewrite span_until_found by done. by rewrite bool_decide_false.
Qed.

Lemma substitutions_need_braces (content : list N) :
  lbrace ∉ content ∨ rbrace ∉ content →
  re_sub match_description 0 (re_sub match_evidence 0 content) = content.
Proof.
  intros Hbraces.
  assert (re_sub match_evidence 0 content = content) as ->.
  { apply re_sub_unmatched. intros before t ->.
    destruct (match_evidence t) as [[replacement rest]|] eqn:Hmatch; [|done].
    apply match_evidence_braces in Hmatch as [Hopen Hclose].
    destruct Hbraces as [Hno|Hno]; exfalso; apply Hno, elem_of_app; by right. }
  apply re_sub_unmatched. intros before t ->.
  destruct (match_description t) as [[replacement rest]|] eqn:Hmatch; [|done].
  apply match_description_braces in Hmatch as [Hopen Hclose].
  destruct Hbraces as [Hno|Hno]; exfalso; apply Hno, elem_of_app; by right.
Qed.

Section BraceFreeFiles.
Context `{Platform}.

(** X8.  When the text read from a file has no opening brace, or has no
    closing brace, [fix_scanner_file] hands to the write the very text it
    read: both substitutions leave it as it is.  What follows is as for
    any file: the error of the write if it fails, the [Fixed ...] line if
    it does not. *)
Theorem brace_free_text_rewritten_verbatim (filepath content : list N) (w : world) :
  read_text filepath (fs w) = inr content →
  lbrace ∉ content ∨ rbrace ∉ content →
  fix_scanner_file filepath w
  = match write_text filepath content (fs w) with
    | (Some e, fs') => (inl e, set_fs fs' w)
    | (None, fs') => (inr tt, print (fixed_message filepath) (set_fs fs' w))
    end.
Proof.
  intros Hread Hbraces. unfold fix_scanner_file.
  by rewrite Hread, substitutions_need_braces.
Qed.

End BraceFreeFiles.

Lemma brace_free_text_rewritten_verbatim_witness :
  let w := @World text_disk
    [(incident_scanner_path, lit "// nothing to fix here: }")] [] [] in
  @read_text text_disk incident_scanner_path (@fs text_disk w)
  = inr (lit "// nothing to fix here: }")
  ∧ (lbrace ∉ lit "// nothing to fix here: }" ∨ rbrace ∉ lit "// nothing to fix here: }")
  ∧ @fix_scanner_file text_disk incident_scanner_path w
    = match @write_text text_disk incident_scanner_path
              (lit "// nothing to fix here: }") (@fs text_disk w) with
      | (Some e, fs') => (inl e, @set_fs text_disk fs' w)
      | (None, fs') =>
          (inr tt, @print text_disk (fixed_message incident_scanner_path)
                     (@set_fs text_disk fs' w))
      end.
Proof.
  intros w.
  assert (@read_text text_disk incident_scanner_path (@fs text_disk w)
          = inr (lit "// nothing to fix here: }")) as Hread
    by (vm_compute; reflexivity).
  assert (lbrace ∉ lit "// nothing to fix here: }"
          ∨ rbrace ∉ lit "// nothing to fix here: }") as Hbraces.
  { left. apply (bool_decide_unpack _). vm_compute. exact I. }
  split; [exact Hread|]. split; [exact Hbraces|].
  exact (@brace_free_text_rewritten_verbatim text_disk incident_scanner_path
           (lit "// nothing to fix here: }") w Hread Hbraces).
Defined.

(** X9.  An Evidence dictionary initializer whose body is not empty and
    has no closing brace is wrapped in a call to JsonSerializer.Serialize:
    the body is kept as it is, the white space between the type and the
    opening brace becomes one space, the text before it (free of the
    letter E) is copied, and the scan goes on after the closing brace. *)
Theorem evidence_initializer_wrapped (before spaces body rest : list N) :
  69 ∉ before → Forall is_space spaces → body ≠ [] → rbrace ∉ body →
  re_sub match_evidence 0
    (before ++ lit "Evidence = new Dictionary<string, object>"
     ++ spaces ++ [lbrace] ++ body ++ [rbrace] ++ rest)
  = before
    ++ lit "Evidence = JsonSerializer.Serialize(new Dictionary<string, object> {"
    ++ body ++ lit "})"
    ++ re_sub match_evidence 0 rest.
Proof.
  intros Hbefore Hspaces Hbody Hclose.
  rewrite re_sub_pass.
  2:{ apply Forall_forall. intros c Hc s'. apply match_evidence_head.
      by intros ->. }
  f_equal.
  pose proof (match_evidence_at spaces body rest Hspaces Hbody Hclose) as Hmatch.
  set (matched := lit "Evidence = new Dictionary<string, object>"
                  ++ spaces ++ [lbrace] ++ body ++ [rbrace]).
  assert (matched ≠ []) as Hmatched.
  { unfold matched.
    change (lit "Evidence = new Dictionary<string, object>")
      with (69 :: lit "vidence = new Dictionary<string, object>"). done. }
  assert (lit "Evidence = new Dictionary<string, object>"
          ++ spaces ++ [lbrace] ++ body ++ [rbrace] ++ rest = matched ++ rest) as Hassoc.
  { unfold matched. by rewrite <- !app_assoc. }
  rewrite Hassoc in Hmatch |- *.
  rewrite (re_sub_match_app match_evidence matched rest _ Hmatched Hmatch).
  by rewrite <- !app_assoc.
Qed.

Lemma evidence_initializer_wrapped_witness :
  (69 ∉ lit "var x = 1; ") ∧ Forall is_space [nl; 32; 32] ∧ lit " a = 1, b " ≠ []
  ∧ (rbrace ∉ lit " a = 1, b ")
  ∧ re_sub match_evidence 0
      (lit "var x = 1; " ++ lit "Evidence = new Dictionary<string, object>"
       ++ [nl; 32; 32] ++ [lbrace] ++ lit " a = 1, b " ++ [rbrace] ++ lit "; done")
    = lit "var x = 1; "
      ++ lit "Evidence = JsonSerializer.Serialize(new Dictionary<string, object> {"
      ++ lit " a = 1, b " ++ lit "})"
      ++ re_sub match_evidence 0 (lit "; done").
Proof.
  assert (69 ∉ lit "var x = 1; ") as H1
    by (apply (bool_decide_unpack _); vm_compute; exact I).
  assert (Forall is_space [nl; 32; 32]) as H2 by (repeat constructor).
  assert (lit " a = 1, b " ≠ []) as H3 by (vm_compute; discriminate).
  assert (rbrace ∉ lit " a = 1, b ") as H4
    by (apply (bool_decide_unpack _); vm_compute; exact I).
  do 4 (split; [assumption|]).
  exact (evidence_initializer_wrapped _ _ _ (lit "; done") H1 H2 H3 H4).
Defined.

Lemma re_sub_evidence_pass (passed s : list N) :
  69 ∉ passed →
  re_sub match_evidence 0 (passed ++ s) = passed ++ re_sub match_evidence 0 s.
Proof.
  intros Hpassed. apply re_sub_pass, Forall_forall.
  intros c Hc s'. apply match_evidence_head. by intros ->.
Qed.

Lemma spaces_without_E (spaces : list N) : Forall is_space spaces → 69 ∉ spaces.
Proof.
  intros Hall Hin. rewrite Forall_forall in Hall. by specialize (Hall _ Hin).
Qed.

Lemma match_evidence_empty_body (spaces rest : list N) :
  Forall is_space spaces →
  match_evidence (lit "Evidence = new Dictionary<string, object>"
                  ++ spaces ++ [lbrace; rbrace] ++ rest) = None.
Proof.
  intros Hspaces. unfold match_evidence.
  rewrite strip_prefix_app, lstrip_spaces_app by done.
  rewrite lstrip_id by done.
  change ([lbrace; rbrace] ++ rest) with (lbrace :: rbrace :: rest).
  cbv beta iota. rewrite bool_decide_true by done. reflexivity.
Qed.

(** X10.  A dictionary initializer with nothing between its braces is not
    rewritten: the pattern asks for at least one character there. *)
Theorem empty_dictionary_untouched (before spaces rest : list N) :
  69 ∉ before → Forall is_space spaces →
  re_sub match_evidence 0
    (before ++ lit "Evidence = new Dictionary<string, object>"
     ++ spaces ++ [lbrace; rbrace] ++ rest)
  = before ++ lit "Evidence = new Dictionary<string, object>"
    ++ spaces ++ [lbrace; rbrace] ++ re_sub match_evidence 0 rest.
Proof.
  intros Hbefore Hspaces. rewrite re_sub_evidence_pass by done. f_equal.
  pose proof (match_evidence_empty_body spaces rest Hspaces) as Hnone.
  change (lit "Evidence = new Dictionary<string, object>")
    with (69 :: lit "vidence = new Dictionary<string, object>") in *.
  assert (69 ∉ lit "vidence = new Dictionary<string, object>") as Htail
    by (apply (bool_decide_unpack _); vm_compute; exact I).
  set (tail := lit "vidence = new Dictionary<string, object>") in *.
  clearbody tail. rewrite <- app_comm_cons in *.
  rewrite re_sub_no_match by done. f_equal.
  rewrite (app_assoc spaces), (app_assoc tail), re_sub_evidence_pass.
  - by rewrite <- !app_assoc.
  - rewrite !not_elem_of_app. repeat split; [done | by apply spaces_without_E |].
    by apply (bool_decide_unpack _).
Qed.

Lemma empty_dictionary_untouched_witness :
  (69 ∉ lit "x = 1; ") ∧ Forall is_space [32]
  ∧ re_sub match_evidence 0
      (lit "x = 1; " ++ lit "Evidence = new Dictionary<string, object>"
       ++ [32] ++ [lbrace; rbrace] ++ lit ";")
    = lit "x = 1; " ++ lit "Evidence = new Dictionary<string, object>"
      ++ [32] ++ [lbrace; rbrace] ++ re_sub match_evidence 0 (lit ";").
Proof.
  assert (69 ∉ lit "x = 1; ") as H1
    by (apply (bool_decide_unpack _); vm_compute; exact I).
  assert (Forall is_space [32]) as H2 by (repeat constructor).
  do 2 (split; [assumption|]).
  exact (empty_dictionary_untouched _ _ (lit ";") H1 H2).
Defined.

(** X11.  Every occurrence of the interpolated title-and-description
    string that the scan reaches is replaced by the title with its
    fallback text; the text before it (free of the dollar sign) is
    copied, and the scan goes on after the occurrence. *)
Theorem description_replaced (before rest : list N) :
  36 ∉ before →
  re_sub match_description 0
    (before
     ++ (lit "$" ++ [dquote] ++ lit "{control.Title}: {control.Description}" ++ [dquote])
     ++ rest)
  = before
    ++ (lit "control.Title ?? " ++ [dquote]
        ++ lit "Manual review required for this control" ++ [dquote])
    ++ re_sub match_description 0 rest.
Proof.
  intros Hbefore. rewrite re_sub_pass.
  2:{ apply Forall_forall. intros c Hc s'. apply match_description_head.
      by intros ->. }
  f_equal. apply re_sub_match_app.
  - vm_compute. discriminate.
  - unfold match_description. by rewrite strip_prefix_app.
Qed.

Lemma description_replaced_witness :
  (36 ∉ lit "Description = ")
  ∧ re_sub match_description 0
      (lit "Description = "
       ++ (lit "$" ++ [dquote] ++ lit "{control.Title}: {control.Description}" ++ [dquote])
       ++ lit ",")
    = lit "Description = "
      ++ (lit "control.Title ?? " ++ [dquote]
          ++ lit "Manual review required for this control" ++ [dquote])
      ++ re_sub match_description 0 (lit ",").
Proof.
  assert (36 ∉ lit "Description = ") as H1
    by (apply (bool_decide_unpack _); vm_compute; exact I).
  split; [exact H1 | exact (description_replaced _ (lit ",") H1)].
Defined.

(** ** Trimmed contents in the function body, and the lines of a text *)

(** X12, for the function body.  What an append statement carries is trimmed: every statement
    between the first and the last line is the call without argument, or
    wraps a text that is not empty and neither begins nor ends with a
    white space character. *)
Theorem appended_content_is_trimmed (raw : list N) :
  Forall (λ stmt,
      stmt = blank_stmt
      ∨ ∃ content,
          content ≠ [] ∧ starts_nonspace content ∧ ends_nonspace content
          ∧ (stmt = literal_stmt content ∨ stmt = interpolated_stmt content))
    (append_statements (convert_raw_string_to_stringbuilder raw)).
Proof.
  rewrite convert_append_statements. apply Forall_fmap, Forall_forall.
  intros line _. simpl. unfold append_stmt.
  case_bool_decide as Hcontent; [by left|].
  right. exists (strip line).
  split; [done|]. split; [apply strip_starts_nonspace|].
  split; [apply strip_ends_nonspace|].
  destruct (_ && _); [by right | by left].
Qed.

(** X13.  Cutting a text at every line break and joining the pieces with
    line breaks gives the text back; and pieces without a line break,
    joined and cut again, come back as they were. *)
Theorem split_join_round_trip (s : list N) (pieces : list (list N)) :
  join [nl] (split nl s) = s
  ∧ (pieces ≠ [] → Forall (λ piece, nl ∉ piece) pieces →
     split nl (join [nl] pieces) = pieces).
Proof. split; [apply join_split | apply split_join]. Qed.

Lemma split_join_round_trip_witness :
  [lit "a"; []; lit " b"] ≠ []
  ∧ Forall (λ piece, nl ∉ piece) [lit "a"; []; lit " b"]
  ∧ split nl (join [nl] [lit "a"; []; lit " b"]) = [lit "a"; []; lit " b"].
Proof.
  assert ([lit "a"; []; lit " b"] ≠ []) as H1 by discriminate.
  assert (Forall (λ piece, nl ∉ piece) [lit "a"; []; lit " b"]) as H2
    by (apply (bool_decide_unpack _); vm_compute; exact I).
  do 2 (split; [assumption|]).
  exact (proj2 (split_join_round_trip [] _) H1 H2).
Defined.

(** ** A run in which every file is fixed *)

Section DriverSuccess.
Context `{Platform}.

Lemma run_batch_all_fixed (healthy : files → Prop) (paths : list (list N)) (w : world) :
  healthy (fs w) →
  (∀ filepath disk, healthy disk → filepath ∈ paths →
     ∃ content, read_text filepath disk = inr content) →
  (∀ filepath content disk, healthy disk → filepath ∈ paths →
     ∃ disk', write_text filepath content disk = (None, disk') ∧ healthy disk') →
  healthy (fs (run_batch paths w))
  ∧ stdout (run_batch paths w) = stdout w ++ (fixed_message <$> paths)
  ∧ stderr (run_batch paths w) = stderr w.
Proof.
  revert w. induction paths as [|filepath paths IH]; intros w Hw Hread Hwrite.
  - simpl. by rewrite app_nil_r.
  - destruct (Hread filepath (fs w) Hw) as [content Hcontent]; [by left|].
    destruct (Hwrite filepath
                (re_sub match_description 0 (re_sub match_evidence 0 content))
                (fs w) Hw) as (disk' & Hdisk' & Hhealthy); [by left|].
    assert (try_fix w filepath = print (fixed_message filepath) (set_fs disk' w))
      as Hstep.
    { unfold try_fix, fix_scanner_file. by rewrite Hcontent, Hdisk'. }
    unfold run_batch in *. simpl fold_left. rewrite Hstep.
    destruct (IH (print (fixed_message filepath) (set_fs disk' w)))
      as (Hfinal & Hout & Herr).
    + done.
    + intros q disk Hdisk Hq. apply Hread; [done | by right].
    + intros q c disk Hdisk Hq. apply Hwrite; [done | by right].
    + split; [done|]. rewrite Hout, Herr. simpl. by rewrite <- app_assoc.
Qed.

(** X14.  When the six scanner files can be read and written, and stay so
    as the run goes, the run prints [Fixed ...] for each of them on the
    standard output, in the order of the list, and nothing on the
    standard error. *)
Theorem all_files_fixed (healthy : files → Prop) (w : world) :
  healthy (fs w) →
  (∀ filepath disk, healthy disk → filepath ∈ scanner_files →
     ∃ content, read_text filepath disk = inr content) →
  (∀ filepath content disk, healthy disk → filepath ∈ scanner_files →
     ∃ disk', write_text filepath content disk = (None, disk') ∧ healthy disk') →
  stdout (main w) = stdout w ++ (fixed_message <$> scanner_files)
  ∧ stderr (main w) = stderr w.
Proof.
  intros Hw Hread Hwrite.
  by destruct (run_batch_all_fixed healthy scanner_files w Hw Hread Hwrite)
    as (_ & Hout & Herr).
Qed.

End DriverSuccess.

Lemma disk_lookup_store (filepath content q : list N) (disk : list (list N * list N)) :
  disk_lookup q (disk_store filepath content disk)
  = if bool_decide (filepath = q) then Some content else disk_lookup q disk.
Proof.
  induction disk as [|[name old] disk IH]; simpl; [done|].
  destruct (decide (name = filepath)) as [->|Hname].
  - rewrite bool_decide_true by done. simpl.
    repeat case_bool_decide; congruence.
  - rewrite bool_decide_false by done. simpl. rewrite IH.
    repeat case_bool_decide; congruence.
Qed.

Lemma text_disk_reads (filepath : list N) (disk : list (list N * list N)) :
  holds_scanners disk → filepath ∈ scanner_files →
  ∃ content, @read_text text_disk filepath disk = inr content.
Proof.
  intros Hdisk Hin. unfold holds_scanners in Hdisk.
  rewrite Forall_forall in Hdisk. destruct (Hdisk _ Hin) as [content Hcontent].
  exists content. simpl. by rewrite Hcontent.
Qed.

Lemma text_disk_writes (filepath content : list N) (disk : list (list N * list N)) :
  holds_scanners disk → filepath ∈ scanner_files →
  ∃ disk', @write_text text_disk filepath content disk = (None, disk')
           ∧ holds_scanners disk'.
Proof.
  intros Hdisk _. exists (disk_store filepath content disk). split; [done|].
  unfold holds_scanners in *. eapply Forall_impl; [exact Hdisk|].
  intros q Hq. simpl in *. rewrite disk_lookup_store. by case_bool_decide.
Qed.

Lemma all_files_fixed_witness :
  holds_scanners (@fs text_disk full_disk)
  ∧ (∀ filepath disk, holds_scanners disk → filepath ∈ scanner_files →
       ∃ content, @read_text text_disk filepath disk = inr content)
  ∧ (∀ filepath content disk, holds_scanners disk → filepath ∈ scanner_files →
       ∃ disk', @write_text text_disk filepath content disk = (None, disk')
                ∧ holds_scanners disk')
  ∧ @stdout text_disk (@main text_disk full_disk)
    = @stdout text_disk full_disk ++ (fixed_message <$> scanner_files)
  ∧ @stderr text_disk (@main text_disk full_disk) = @stderr text_disk full_disk.
Proof.
  assert (holds_scanners (@fs text_disk full_disk)) as Hfull.
  { apply (bool_decide_unpack _). vm_compute. exact I. }
  split; [exact Hfull|]. split; [exact text_disk_reads|].
  split; [exact text_disk_writes|].
  exact (@all_files_fixed text_disk holds_scanners full_disk Hfull
           text_disk_reads text_disk_writes).
Defined.

(** The texts the six files hold after that run. *)
Example main_on_full_disk :
  Forall (λ filepath,
      disk_lookup filepath (@fs text_disk (@main text_disk full_disk))
      = Some (lit "Evidence = JsonSerializer.Serialize(new Dictionary<string, object> { a }); Description = control.Title ?? "
              ++ [dquote] ++ lit "Manual review required for this control" ++ [dquote]))
    scanner_files.
Proof. apply (bool_decide_unpack _). vm_compute. exact I. Qed.
